(** * UK-IPOP/geocoder: address normalisation and geocode reconciliation

    A shallow embedding of [src/geocoding/geocode.py] (and of the keyword
    classifier used by [scripts/drug_extraction.py]) together with the
    properties stated about them.

    Conventions of the embedding.
    - A Python [str] is a Rocq [string]; the model covers ASCII text. The
      case conversions, [str.strip] and the regular expression classes are
      the Python ones restricted to the code points below 128; a byte above
      127 is an uncased, non-blank symbol.
    - A pandas cell is a [cell]: [NA] stands for both [None] and [NaN]
      (everything [pd.isna] accepts), [Int] for a Python int, [Float] for a
      float carried by the text Python prints for it (the code copies,
      prints and null-tests floats, and never computes with them), [Str]
      for a str.
    - A row ([pd.Series], as [df.apply(axis=1)] hands it over) is a finite
      map from column label to cell; a [DataFrame] is the list of its rows.
      Join keys are compared as cells, which is pandas' comparison on str
      keys, and a join copies cells as they are, which is what pandas does
      to floats and strs (an int column gets float cells once a row has no
      match): the statements on the cells of a join are made for str case
      numbers and for cells that are not ints.
    - A Python exception is the [Raise] outcome of the [res] monad. *)

From Stdlib Require Import ZArith Ascii String List Bool Lia.
From stdpp Require Import base option list gmap strings fin_maps pretty.

Local Open Scope string_scope.
Local Open Scope list_scope.

(** ** Python outcomes *)

Inductive exn : Type :=
| KeyError (key : string)
| AttributeError
| ValueError (msg : string)
| Exception (msg : string).

Inductive res (A : Type) : Type :=
| Ok (a : A)
| Raise (e : exn).
Arguments Ok {A} a.
Arguments Raise {A} e.

#[global] Instance res_bind : MBind res := fun A B f m =>
  match m with
  | Ok a => f a
  | Raise e => Raise e
  end.

Fixpoint res_mapM {A B : Type} (f : A → res B) (l : list A) : res (list B) :=
  match l with
  | [] => Ok []
  | a :: l' => b ← f a; bs ← res_mapM f l'; Ok (b :: bs)
  end.

(** ** Python strings (ASCII) *)

Definition code (c : ascii) : N := N_of_ascii c.

Definition is_upper (c : ascii) : bool := (65 <=? code c)%N && (code c <=? 90)%N.
Definition is_lower (c : ascii) : bool := (97 <=? code c)%N && (code c <=? 122)%N.
Definition is_digit (c : ascii) : bool := (48 <=? code c)%N && (code c <=? 57)%N.
Definition is_cased (c : ascii) : bool := is_upper c || is_lower c.

(** [str.isspace] and the regex class [\s]: tab, LF, VT, FF, CR, the four
    separators 0x1c-0x1f and the space. *)
Definition isspace (c : ascii) : bool :=
  ((9 <=? code c)%N && (code c <=? 13)%N)
  || ((28 <=? code c)%N && (code c <=? 32)%N).

Definition lower_char (c : ascii) : ascii :=
  if is_upper c then ascii_of_N (code c + 32) else c.
Definition upper_char (c : ascii) : ascii :=
  if is_lower c then ascii_of_N (code c - 32) else c.

Fixpoint smap (f : ascii → ascii) (s : string) : string :=
  match s with
  | EmptyString => EmptyString
  | String c s' => String (f c) (smap f s')
  end.

(** [str.lower] and [str.upper]. *)
Definition lower (s : string) : string := smap lower_char s.
Definition upper (s : string) : string := smap upper_char s.

(** [str.title]: a cased character that follows an uncased one (or starts
    the string) is upper-cased, one that follows a cased one is lower-cased. *)
Fixpoint title_from (previous_is_cased : bool) (s : string) : string :=
  match s with
  | EmptyString => EmptyString
  | String c s' =>
      if is_cased c
      then String (if previous_is_cased then lower_char c else upper_char c)
                  (title_from true s')
      else String c (title_from false s')
  end.
Definition title (s : string) : string := title_from false s.

Fixpoint lstrip (s : string) : string :=
  match s with
  | EmptyString => EmptyString
  | String c s' => if isspace c then lstrip s' else s
  end.

Fixpoint rstrip (s : string) : string :=
  match s with
  | EmptyString => EmptyString
  | String c s' =>
      match rstrip s' with
      | EmptyString => if isspace c then EmptyString else String c EmptyString
      | r => String c r
      end
  end.

(** [str.strip()] with no argument. *)
Definition strip (s : string) : string := lstrip (rstrip s).

Fixpoint startswith (w s : string) : bool :=
  match w, s with
  | EmptyString, _ => true
  | String a w', String b s' => Ascii.eqb a b && startswith w' s'
  | String _ _, EmptyString => false
  end.

(** [w in s] for two strs. *)
Fixpoint contains (w s : string) : bool :=
  startswith w s
  || match s with
     | EmptyString => false
     | String _ s' => contains w s'
     end.

(** Every character of [s] satisfies [P]. *)
Fixpoint sforall (P : ascii → bool) (s : string) : bool :=
  match s with
  | EmptyString => true
  | String c s' => P c && sforall P s'
  end.

(** [filter] on a str. *)
Fixpoint sfilter (P : ascii → bool) (s : string) : string :=
  match s with
  | EmptyString => EmptyString
  | String c s' => if P c then String c (sfilter P s') else sfilter P s'
  end.

(** ** Regular expressions: the fragment of [re] the program uses

    Character classes, greedy star over a class, concatenation and ordered
    alternation, matched by backtracking in the order of [re]: the first
    alternative that lets the rest of the pattern succeed wins, and a star
    takes as much as it can before it gives back. *)

Inductive regex : Type :=
| Chr (cls : ascii → bool)
| Star (cls : ascii → bool)
| Cat (r1 r2 : regex)
| Alt (r1 r2 : regex).

Fixpoint star (cls : ascii → bool) (s : string) (k : string → option string)
  : option string :=
  match s with
  | EmptyString => k EmptyString
  | String c s' =>
      if cls c
      then match star cls s' k with
           | Some rest => Some rest
           | None => k s
           end
      else k s
  end.

(** [rmatch r s k]: match [r] at the start of [s] and hand the remainder to
    the continuation [k]; the answer is what is left of [s] after the match
    that [re] would report. *)
Fixpoint rmatch (r : regex) (s : string) (k : string → option string)
  : option string :=
  match r with
  | Chr cls =>
      match s with
      | String c s' => if cls c then k s' else None
      | EmptyString => None
      end
  | Star cls => star cls s k
  | Cat r1 r2 => rmatch r1 s (fun s' => rmatch r2 s' k)
  | Alt r1 r2 =>
      match rmatch r1 s k with
      | Some rest => Some rest
      | None => rmatch r2 s k
      end
  end.

Definition re_match (r : regex) (s : string) : option string := rmatch r s Some.

(** The number of characters [re.match(r, s)] consumes; 0 when there is no
    match (the patterns of this program match no empty string). *)
Definition match_length (r : regex) (s : string) : nat :=
  match re_match r s with
  | Some rest => String.length s - String.length rest
  | None => 0
  end.

(** [re.sub(r, '', s)]: scan left to right, drop every leftmost match and
    resume after it. [skip] counts the characters of the current match that
    are still to be dropped. A match of no character removes nothing. *)
Fixpoint re_sub_from (r : regex) (skip : nat) (s : string) : string :=
  match s with
  | EmptyString => EmptyString
  | String c s' =>
      match skip with
      | S n => re_sub_from r n s'
      | O =>
          match match_length r s with
          | S n => re_sub_from r n s'
          | O => String c (re_sub_from r 0 s')
          end
      end
  end.
Definition re_sub_empty (r : regex) (s : string) : string := re_sub_from r 0 s.

Definition chr (c : ascii) : regex := Chr (Ascii.eqb c).
(** [.] without DOTALL: anything but a line feed. *)
Definition dot : ascii → bool := fun c => negb (Ascii.eqb c "010").

(** r"apt.*|\#.*|.*nh," *)
Definition apartment_re : regex :=
  Alt (Cat (chr "a") (Cat (chr "p") (Cat (chr "t") (Star dot))))
   (Alt (Cat (chr "#") (Star dot))
        (Cat (Star dot) (Cat (chr "n") (Cat (chr "h") (chr ","))))).

(** The class [a-zA-Z0-9.\s]. *)
Definition street_char (c : ascii) : bool :=
  is_lower c || is_upper c || is_digit c || Ascii.eqb c "." || isspace c.

(** r"[^a-zA-Z0-9.\s]" *)
Definition junk_re : regex := Chr (fun c => negb (street_char c)).

(** ** pandas cells, rows and frames *)

Inductive cell : Type :=
| NA
| Int (n : Z)
| Float (repr : string)
| Str (s : string).

#[global] Instance cell_eq_dec : EqDecision cell.
Proof. solve_decision. Defined.

(** [pd.isna] and [pd.notna] on a scalar. *)
Definition isna (v : cell) : bool :=
  match v with
  | NA => true
  | _ => false
  end.
Definition notna (v : cell) : bool := negb (isna v).

Abbreviation Series := (gmap string cell).
Abbreviation DataFrame := (list (gmap string cell)).

(** [row[key]] *)
Definition getitem (row : Series) (key : string) : res cell :=
  match row !! key with
  | Some v => Ok v
  | None => Raise (KeyError key)
  end.

(** The receiver of a str method ([.lower()], [.title()]): only a str has
    one, [None], [NaN] and numbers raise AttributeError. *)
Definition str_method (v : cell) : res string :=
  match v with
  | Str s => Ok s
  | _ => Raise AttributeError
  end.

(** The text an f-string slot [{v if v else ''}] contributes. Every caller
    has replaced a missing value by the empty str before the slot. *)
Definition slot (v : cell) : string :=
  match v with
  | NA => EmptyString
  | Int n => if (n =? 0)%Z then EmptyString else pretty n
  | Float repr =>
      if String.eqb repr "0.0" || String.eqb repr "-0.0" then EmptyString else repr
  | Str s => s
  end.

(** ** geocode.py: address cleaning and building *)

Definition remove_apartment_info (x : string) : string :=
  let result1 := re_sub_empty apartment_re x in
  let result2 := re_sub_empty junk_re result1 in
  result2.

Definition clean_address (street : cell) : res (option string) :=
  if isna street then Ok None
  else
    street ← str_method street;
    let s := strip (lower street) in
    if contains "unk" s || contains "n/a" s || String.eqb s "same" || String.eqb s "none"
    then Ok None
    else
      let no_apartment_info := remove_apartment_info s in
      Ok (Some no_apartment_info).

Definition city_sub (row : Series) : res (string * bool) :=
  incident_city ← getitem row "incident_city";
  if notna incident_city then
    c ← str_method incident_city;
    Ok (strip (title c), false)
  else
    residence_city ← getitem row "residence_city";
    if notna residence_city then
      c ← str_method residence_city;
      Ok (strip (title c), true)
    else Ok (EmptyString, false).

(** [clean_address(row[key]) if pd.notna(row[key]) else ''], then the slot
    [{street if street else ''}]: [None] and the empty str print nothing. *)
Definition street_of (row : Series) (key : string) : res string :=
  v ← getitem row key;
  street ← (if notna v then clean_address v else Ok (Some EmptyString));
  Ok (default EmptyString street).

(** ['' if pd.isna(row[key]) else row[key]], then its slot. *)
Definition zip_of (row : Series) (key : string) : res string :=
  v ← getitem row key;
  let zip_code := if isna v then Str EmptyString else v in
  Ok (slot zip_code).

(** The slots [{city if city else ''}] and [{state if state else ''}] hold a
    str and print it as it is. *)
Definition create_address (row : Series) (flag : string) : res (string * bool) :=
  if String.eqb flag "incident" then
    street ← street_of row "incident_street";
    '(city, subbed) ← city_sub row;
    zip_code ← zip_of row "incident_zip";
    let address := strip (upper (street +:+ " " +:+ city +:+ " " +:+ zip_code)) in
    Ok (address, subbed)
  else if String.eqb flag "death" then
    street ← street_of row "death_street";
    death_city ← getitem row "death_city";
    c ← str_method death_city;
    let city := strip (title c) in
    death_state ← getitem row "death_state";
    state ← (if notna death_state
             then x ← str_method death_state; Ok (strip (title x))
             else Ok EmptyString);
    zip_code ← zip_of row "death_zip";
    let address :=
      strip (upper (street +:+ " " +:+ city +:+ " " +:+ state +:+ " " +:+ zip_code)) in
    Ok (address, false)
  else Raise (ValueError "flag must be either 'incident' or 'death'").

(** ** geocode.py: reconciliation *)

Definition composite_lat_long (row : Series) (toggle : string) : res cell :=
  if String.eqb toggle "lat" then
    latitude ← getitem row "latitude";
    if notna latitude then Ok latitude
    else
      geocoded_latitude ← getitem row "geocoded_latitude";
      if notna geocoded_latitude then Ok geocoded_latitude else Ok NA
  else if String.eqb toggle "long" then
    longitude ← getitem row "longitude";
    if notna longitude then Ok longitude
    else
      geocoded_longitude ← getitem row "geocoded_longitude";
      if notna geocoded_longitude then Ok geocoded_longitude else Ok NA
  else Raise (Exception "expected toggle value to be either `lat` or `long`").

(** [df[columns]]: the listed columns of every row; a missing one is a
    KeyError. *)
Definition select_columns (columns : list string) (df : DataFrame) : res DataFrame :=
  res_mapM (fun row : Series =>
              kvs ← res_mapM (fun c => v ← getitem row c; Ok (c, v)) columns;
              Ok (list_to_map kvs : Series)) df.

(** [pd.merge(left, right, on=key, how='left')], [right] having exactly the
    columns [right_columns].  A column other than the key that both frames
    have is kept twice, the left one under the suffix _x and the right one
    under _y. *)
Definition clashes (on : string) (right_columns : list string) (l : Series)
  (c : string) : bool :=
  bool_decide (c ≠ on ∧ c ∈ right_columns ∧ is_Some (l !! c)).

Definition suffix_left (on : string) (right_columns : list string) (l : Series)
  : Series :=
  foldr (fun c (m : Series) =>
           match l !! c with
           | Some v =>
               if clashes on right_columns l c
               then <[c +:+ "_x" := v]> (delete c m)
               else m
           | None => m
           end) l right_columns.

(** One row of the join: the left row and, under the right frame's labels,
    the cells of the matching right row [r], or nulls when there is none. *)
Definition join_row (on : string) (right_columns : list string) (l : Series)
  (r : option Series) : Series :=
  foldr (fun c (m : Series) =>
           if bool_decide (c = on) then m
           else <[(if clashes on right_columns l c then c +:+ "_y" else c)
                  := default NA (r ≫= (.!! c))]> m)
        (suffix_left on right_columns l) right_columns.

Definition merge_left (left right : DataFrame) (on : string)
  (right_columns : list string) : res DataFrame :=
  joined ← res_mapM (fun l : Series =>
              key ← getitem l on;
              match filter (fun r : Series => r !! on = Some key) right with
              | [] => Ok [join_row on right_columns l None]
              | matches => Ok (map (fun r => join_row on right_columns l (Some r)) matches)
              end) left;
  Ok (concat joined).

(** [df.name]: the column [name] as a list of cells. *)
Definition getattr_column (df : DataFrame) (name : string) : res (list cell) :=
  res_mapM (fun row : Series =>
              match row !! name with
              | Some v => Ok v
              | None => Raise AttributeError
              end) df.

(** [df[name] = values] *)
Definition set_column (df : DataFrame) (name : string) (values : list cell)
  : DataFrame :=
  zip_with (fun (row : Series) v => <[name := v]> row) df values.

Definition geocoded_columns : list string :=
  ["casenumber"; "geocoded_latitude"; "geocoded_longitude"; "geocoded_score";
   "geocoded_address"].

Definition combine_geo_results (coded_df original_df : DataFrame) : res DataFrame :=
  right ← select_columns geocoded_columns coded_df;
  df ← merge_left original_df right "casenumber" geocoded_columns;
  geocoded_score ← getattr_column df "geocoded_score";
  let df := set_column df "recovered"
              (map (fun x => if notna x then Int 1 else Int 0) geocoded_score) in
  lat ← res_mapM (fun row => composite_lat_long row "lat") df;
  let df := set_column df "final_latitude" lat in
  long ← res_mapM (fun row => composite_lat_long row "long") df;
  let df := set_column df "final_longitude" long in
  Ok df.

(** The three column assignments of [combine_geo_results] as they act on
    one row of the merged frame. *)
Definition enrich_row (d : Series) : res Series :=
  geocoded_score ← (match d !! "geocoded_score" with
                    | Some v => Ok v
                    | None => Raise AttributeError
                    end);
  let d := <["recovered" := if notna geocoded_score then Int 1 else Int 0]> d in
  lat ← composite_lat_long d "lat";
  let d := <["final_latitude" := lat]> d in
  long ← composite_lat_long d "long";
  Ok (<["final_longitude" := long]> d).

(** The columns [combine_geo_results] adds to the original frame. *)
Definition added_columns : list string :=
  ["geocoded_latitude"; "geocoded_longitude"; "geocoded_score"; "geocoded_address";
   "recovered"; "final_latitude"; "final_longitude"].

(** ** geocode.py: the geocoding loop

    The provider ([arcgis.geocoding.geocode]) is outside the program: it is
    a parameter that answers a query with a ranked list of candidates and
    may change its own state [W].  A [session] pairs that state with the
    log of the queries sent so far, so that a call that was not made is a
    session left as it was. *)

Record extent : Type := {
  xmin : string; ymin : string; xmax : string; ymax : string; wkid : Z
}.

Definition search_bounds : extent :=
  {| xmin := "-87.38"; ymin := "36.96"; xmax := "-91.6"; ymax := "42.57";
     wkid := 4326 |}.

Record location : Type := { loc_x : cell; loc_y : cell }.

(** One candidate of the provider's answer: the keys address, location
    and score of [best_result]. *)
Record candidate : Type := {
  c_address : cell; c_location : location; c_score : cell
}.

(** The dict appended to [results]: the keys address, latitude, longitude
    and score. *)
Record geo_data : Type := {
  geo_address : cell; geo_latitude : cell; geo_longitude : cell; geo_score : cell
}.

Record session (W : Type) : Type := { provider : W; queries : list string }.
Arguments provider {W} _.
Arguments queries {W} _.

(** A missing address is [None]; a present one is a str ([list[str]]). *)
Definition address_cell (address : option string) : cell :=
  match address with
  | Some a => Str a
  | None => NA
  end.

(** {"address": address, "latitude": None, "longitude": None, "score": None} *)
Definition no_result (address : option string) : geo_data :=
  {| geo_address := address_cell address; geo_latitude := NA;
     geo_longitude := NA; geo_score := NA |}.

(** [pd.isna(address) or "unknown" in address] *)
Definition skipped (address : option string) : bool :=
  match address with
  | None => true
  | Some a => contains "unknown" a
  end.

Section Geocoding.
Context {W : Type}.
Variable geocode : string → extent → string → W → list candidate * W.

(** The body of the loop for one address. *)
Definition geocode_address (address : option string) (σ : session W)
  : geo_data * session W :=
  match address with
  | None => (no_result address, σ)
  | Some a =>
      if contains "unknown" a then (no_result address, σ)
      else
        let '(geocoded_info, w) := geocode a search_bounds "rooftop" (provider σ) in
        let σ' := {| provider := w; queries := queries σ ++ [a] |} in
        match geocoded_info with
        | best_result :: _ =>
            ({| geo_address := c_address best_result;
                geo_latitude := loc_y (c_location best_result);
                geo_longitude := loc_x (c_location best_result);
                geo_score := c_score best_result |}, σ')
        | [] => (no_result address, σ')
        end
  end.

Fixpoint run_geocoding_loop (addresses : list (option string))
  (results : list geo_data) (σ : session W) : list geo_data * session W :=
  match addresses with
  | [] => (results, σ)
  | address :: rest =>
      let '(geo, σ') := geocode_address address σ in
      run_geocoding_loop rest (results ++ [geo]) σ'
  end.

Definition run_geocoding (addresses : list (option string)) (σ : session W)
  : list geo_data * session W :=
  run_geocoding_loop addresses [] σ.
End Geocoding.

(** ** drug_extraction.py: the keyword classifier *)

(** Modelled from the spec: [search_handler] of geocoding/drug_extract_utils.py,
    which the script calls once per drug class and text column and whose
    source is not part of the material.  Null text is false; otherwise the
    lower-cased text is searched for each term as a substring. *)
Definition search_handler (x : option string) (search_words : list string) : bool :=
  match x with
  | None => false
  | Some text => existsb (fun word => contains word (lower text)) search_words
  end.

(** ** Sample data *)

(** The record of the end-to-end example of the address builder. *)
Definition example_record : Series :=
  list_to_map
    [("incident_street", Str "123 Main St Apt #4B"); ("incident_city", NA);
     ("residence_city", Str "columbia"); ("incident_zip", Str "65201")].

(** A death record whose city is missing. *)
Definition death_record_without_city : Series :=
  list_to_map
    [("death_street", Str "10 Elm St"); ("death_city", NA);
     ("death_state", Str "mo"); ("death_zip", Str "65201")].

(** The case of the end-to-end example of the reconciler: one raw axis is
    known, the provider supplied both. *)
Definition example_original : DataFrame :=
  [ list_to_map [("casenumber", Str "ME-1"); ("latitude", Float "38.95");
                 ("longitude", NA)] ].
Definition example_coded : DataFrame :=
  [ list_to_map [("casenumber", Str "ME-1"); ("latitude", Float "38.95");
                 ("longitude", NA); ("geocoded_latitude", Float "38.9");
                 ("geocoded_longitude", Float "-92.33"); ("geocoded_score", Int 91);
                 ("geocoded_address", Str "1 MAIN ST, COLUMBIA, MO")] ].

(** A geocoded case that came back with coordinates and no score. *)
Definition unscored_original : DataFrame :=
  [ list_to_map [("casenumber", Str "ME-2"); ("latitude", NA); ("longitude", NA)] ].
Definition unscored_coded : DataFrame :=
  [ list_to_map [("casenumber", Str "ME-2"); ("latitude", NA); ("longitude", NA);
                 ("geocoded_latitude", Float "38.9");
                 ("geocoded_longitude", Float "-92.33"); ("geocoded_score", NA);
                 ("geocoded_address", Str "1 MAIN ST, COLUMBIA, MO")] ].

(** The rows the two sample cases are reconciled to. *)
Definition example_reconciled : Series :=
  list_to_map [("casenumber", Str "ME-1"); ("latitude", Float "38.95");
               ("longitude", NA); ("geocoded_latitude", Float "38.9");
               ("geocoded_longitude", Float "-92.33"); ("geocoded_score", Int 91);
               ("geocoded_address", Str "1 MAIN ST, COLUMBIA, MO");
               ("recovered", Int 1); ("final_latitude", Float "38.95");
               ("final_longitude", Float "-92.33")].
Definition unscored_reconciled : Series :=
  list_to_map [("casenumber", Str "ME-2"); ("latitude", NA); ("longitude", NA);
               ("geocoded_latitude", Float "38.9");
               ("geocoded_longitude", Float "-92.33"); ("geocoded_score", NA);
               ("geocoded_address", Str "1 MAIN ST, COLUMBIA, MO");
               ("recovered", Int 0); ("final_latitude", Float "38.9");
               ("final_longitude", Float "-92.33")].

(** The inputs of the reconciler used as a worked case of the frame
    property: two cases, one of them geocoded. *)
Definition frame_original : DataFrame :=
  [ list_to_map [("casenumber", Str "ME-1"); ("latitude", Float "38.95");
                 ("longitude", NA); ("primarycause", Str "fentanyl toxicity")];
    list_to_map [("casenumber", Str "ME-3"); ("latitude", Float "39.1");
                 ("longitude", Float "-94.58"); ("primarycause", NA)] ].

(** Sample data for the geocoding loop: a provider that finds no candidate,
    and three addresses of which only the last is sent to it. *)
Definition no_match_provider : string → extent → string → unit → list candidate * unit :=
  fun _ _ _ w => ([], w).

Definition sample_addresses : list (option string) :=
  [None; Some "unknown COLUMBIA 65201"; Some "1 MAIN ST COLUMBIA 65201"].

(** A geocoded frame for [frame_original]: its first case only. *)
Definition frame_coded : DataFrame :=
  [ list_to_map [("casenumber", Str "ME-1"); ("latitude", Float "38.95");
                 ("longitude", NA); ("primarycause", Str "fentanyl toxicity");
                 ("geocoded_latitude", Float "38.9");
                 ("geocoded_longitude", Float "-92.33"); ("geocoded_score", Int 91);
                 ("geocoded_address", Str "1 MAIN ST, COLUMBIA, MO")] ].


(** ** geocode.py: preparing the frame *)

(** A cell of the prepared frame: a cell of the input, or the Python bool
    of the substitution column. *)
Inductive value : Type :=
| Cell (v : cell)
| Bool (b : bool).

(** [prepare_df], for a frame with at least one row ([df.apply] hands back
    a frame instead of a Series for an empty one, which the embedding does
    not cover).  The two assignments change [df] in place and the function
    returns it; the embedding returns the changed frame. *)
Definition prepare_df (df : DataFrame) : res (list (gmap string value)) :=
  addresses ← res_mapM (fun row => create_address row "incident") df;
  let df : list (gmap string value) :=
    zip_with (fun (row : Series) (a : string * bool) =>
                <["incident_address" := Cell (Str a.1)]> (Cell <$> row))
             df addresses in
  let df : list (gmap string value) :=
    zip_with (fun (row : gmap string value) (a : string * bool) =>
                <["incident_address_sub" := Bool a.2]> row)
             df addresses in
  Ok df.

(** Two records for [prepare_df]: the one of the example and one without
    cities. *)
Definition prepare_sample : DataFrame :=
  [ example_record;
    list_to_map [("incident_street", Str "n/a"); ("incident_city", NA);
                 ("residence_city", NA); ("incident_zip", Str "65201")] ].

(** A code point of the ASCII range. *)
Definition is_ascii (c : ascii) : bool := (code c <? 128)%N.

(** A Python int cell. *)
Definition is_int (v : cell) : bool :=
  match v with
  | Int _ => true
  | _ => false
  end.

(** An original frame that already has a column named recovered, and the
    row it is reconciled to with [example_coded]. *)
Definition relabelled_original : DataFrame :=
  [ list_to_map [("casenumber", Str "ME-1"); ("latitude", Float "38.95");
                 ("longitude", NA); ("recovered", Str "pending")] ].
Definition relabelled_reconciled : Series :=
  list_to_map [("casenumber", Str "ME-1"); ("latitude", Float "38.95");
               ("longitude", NA); ("geocoded_latitude", Float "38.9");
               ("geocoded_longitude", Float "-92.33"); ("geocoded_score", Int 91);
               ("geocoded_address", Str "1 MAIN ST, COLUMBIA, MO");
               ("recovered", Int 1); ("final_latitude", Float "38.95");
               ("final_longitude", Float "-92.33")].

(** A geocoded frame for [frame_original] whose cells are floats and strs. *)
Definition join_coded : DataFrame :=
  [ list_to_map [("casenumber", Str "ME-1"); ("latitude", Float "38.95");
                 ("longitude", NA); ("primarycause", Str "fentanyl toxicity");
                 ("geocoded_latitude", Float "38.9");
                 ("geocoded_longitude", Float "-92.33");
                 ("geocoded_score", Float "91.0");
                 ("geocoded_address", Str "1 MAIN ST, COLUMBIA, MO")] ].

(** * Properties *)

(** ** Strings *)

Ltac each_ascii c := destruct c as [[] [] [] [] [] [] [] []].

(** Membership in a list that is written out. *)
Ltac in_list := repeat first [apply list_elem_of_here | apply list_elem_of_further].

Lemma lower_char_idem c : lower_char (lower_char c) = lower_char c.
Proof. each_ascii c; reflexivity. Qed.


Lemma sforall_smap P f s : (∀ c, P (f c) = true) → sforall P (smap f s) = true.
Proof. intros Hf. induction s as [|c s IH]; simpl; [done|]. by rewrite Hf, IH. Qed.

Lemma sforall_lstrip P s : sforall P s = true → sforall P (lstrip s) = true.
Proof.
  induction s as [|c s IH]; simpl; [done|].
  intros [Hc Hs]%andb_true_iff. destruct (isspace c); [by apply IH|].
  simpl. by rewrite Hc, Hs.
Qed.

Lemma sforall_rstrip P s : sforall P s = true → sforall P (rstrip s) = true.
Proof.
  induction s as [|c s IH]; simpl; [done|].
  intros [Hc Hs]%andb_true_iff. specialize (IH Hs).
  destruct (rstrip s) as [|d r].
  - destruct (isspace c); simpl; [done|]. by rewrite Hc.
  - simpl in *. by rewrite Hc, IH.
Qed.

Lemma sforall_strip P s : sforall P s = true → sforall P (strip s) = true.
Proof. intros. by apply sforall_lstrip, sforall_rstrip. Qed.

Lemma sforall_re_sub_from P r n s :
  sforall P s = true → sforall P (re_sub_from r n s) = true.
Proof.
  revert n. induction s as [|c s IH]; intros n; cbn [re_sub_from sforall]; [done|].
  intros [Hc Hs]%andb_true_iff.
  destruct n as [|n]; [|by apply IH].
  destruct (match_length r (String c s)) as [|k]; [|by apply IH].
  cbn [sforall]. rewrite Hc. by apply IH.
Qed.

Lemma sforall_impl (P Q : ascii → bool) s :
  (∀ c, P c = true → Q c = true) → sforall P s = true → sforall Q s = true.
Proof.
  intros HPQ. induction s as [|c s IH]; simpl; [done|].
  intros [Hc Hs]%andb_true_iff. by rewrite (HPQ _ Hc), IH.
Qed.

Lemma sforall_sfilter P s : sforall P (sfilter P s) = true.
Proof.
  induction s as [|c s IH]; simpl; [done|].
  destruct (P c) eqn:Hc; simpl; rewrite ?Hc; done.
Qed.

Lemma sfilter_id P s : sforall P s = true → sfilter P s = s.
Proof.
  induction s as [|c s IH]; simpl; [done|].
  intros [Hc Hs]%andb_true_iff. by rewrite Hc, IH.
Qed.

Lemma smap_id f s : sforall (fun c => Ascii.eqb (f c) c) s = true → smap f s = s.
Proof.
  induction s as [|c s IH]; simpl; [done|].
  intros [Hc%Ascii.eqb_eq Hs]%andb_true_iff. by rewrite Hc, IH.
Qed.

(** ** Regular expressions *)

(** Deleting the matches of a one-character class is filtering by its
    complement. *)
Lemma re_sub_empty_class cls s :
  re_sub_empty (Chr cls) s = sfilter (fun c => negb (cls c)) s.
Proof.
  unfold re_sub_empty.
  induction s as [|c s IH]; cbn [re_sub_from sfilter]; [done|].
  unfold match_length, re_match. cbn [rmatch]. destruct (cls c); cbn [negb].
  - cbn [String.length]. replace (S (String.length s) - String.length s) with 1 by lia.
    done.
  - by rewrite IH.
Qed.

Lemma rmatch_alt r1 r2 s k :
  rmatch (Alt r1 r2) s k =
    match rmatch r1 s k with
    | Some rest => Some rest
    | None => rmatch r2 s k
    end.
Proof. reflexivity. Qed.

Lemma rmatch_cat r1 r2 s k :
  rmatch (Cat r1 r2) s k = rmatch r1 s (fun s' => rmatch r2 s' k).
Proof. reflexivity. Qed.

Lemma rmatch_star cls s k : rmatch (Star cls) s k = star cls s k.
Proof. reflexivity. Qed.

Lemma apt_alternative_none x k :
  startswith "apt" x = false →
  rmatch (Cat (chr "a") (Cat (chr "p") (Cat (chr "t") (Star dot)))) x k = None.
Proof.
  destruct x as [|c1 [|c2 [|c3 x]]]; cbn [rmatch chr startswith];
    repeat match goal with
           | |- context [Ascii.eqb ?a ?b] => destruct (Ascii.eqb a b)
           end; done.
Qed.

Lemma hash_alternative_none x k :
  sforall street_char x = true → rmatch (Cat (chr "#") (Star dot)) x k = None.
Proof.
  destruct x as [|c x]; cbn [rmatch chr sforall]; [done|].
  intros [Hc _]%andb_true_iff.
  destruct (Ascii.eqb_spec "#" c) as [<-|]; done.
Qed.

Lemma nh_comma_none y :
  sforall street_char y = true →
  rmatch (Cat (chr "n") (Cat (chr "h") (chr ","))) y Some = None.
Proof.
  destruct y as [|c1 [|c2 [|c3 y]]]; cbn [rmatch chr];
    try (by repeat match goal with
                   | |- context [Ascii.eqb ?a ?b] => destruct (Ascii.eqb a b)
                   end).
  intros H. destruct (Ascii.eqb "n" c1); [|done]. destruct (Ascii.eqb "h" c2); [|done].
  destruct (Ascii.eqb_spec "," c3) as [<-|]; [|done].
  cbn [sforall] in H.
  apply andb_true_iff in H as [_ [_ [H _]%andb_true_iff]%andb_true_iff].
  done.
Qed.

Lemma nh_alternative_none cls x :
  sforall street_char x = true →
  star cls x (fun s' => rmatch (Cat (chr "n") (Cat (chr "h") (chr ","))) s' Some) = None.
Proof.
  induction x as [|c x IH]; intros H.
  - done.
  - cbn [star]. rewrite (nh_comma_none _ H).
    apply andb_true_iff in H as [_ H]. rewrite (IH H). by destruct (cls c).
Qed.

(** On a string of street characters without "apt" the first pattern finds
    nothing to remove. *)
Lemma apartment_re_no_match x :
  sforall street_char x = true → startswith "apt" x = false →
  match_length apartment_re x = 0.
Proof.
  intros Hx Hapt. unfold match_length, re_match, apartment_re.
  rewrite !rmatch_alt, (apt_alternative_none _ _ Hapt), (hash_alternative_none _ _ Hx).
  rewrite rmatch_cat, rmatch_star. by rewrite (nh_alternative_none _ _ Hx).
Qed.

Lemma re_sub_apartment_id t :
  sforall street_char t = true → contains "apt" t = false →
  re_sub_empty apartment_re t = t.
Proof.
  unfold re_sub_empty. induction t as [|c t IH]; [done|].
  intros Ht Hc. cbn [re_sub_from].
  cbn [contains] in Hc. apply orb_false_iff in Hc as [Hs Hc].
  rewrite (apartment_re_no_match _ Ht Hs).
  cbn [sforall] in Ht. apply andb_true_iff in Ht as [_ Ht].
  by rewrite IH.
Qed.

Lemma street_chars_no_slash t :
  sforall street_char t = true → contains "n/a" t = false.
Proof.
  induction t as [|c t IH]; [done|].
  intros [_ Ht]%andb_true_iff. cbn [contains]. rewrite (IH Ht), orb_false_r.
  destruct t as [|c2 t]; cbn [startswith]; [by rewrite andb_false_r|].
  destruct (Ascii.eqb_spec "/" c2) as [<-|]; [|by rewrite andb_false_r].
  by apply andb_true_iff in Ht as [Ht _].
Qed.

Lemma remove_apartment_info_street_chars x :
  sforall street_char (remove_apartment_info x) = true.
Proof.
  unfold remove_apartment_info, junk_re. rewrite re_sub_empty_class.
  eapply sforall_impl; [|apply sforall_sfilter].
  intros c. cbv beta. by rewrite negb_involutive.
Qed.

Lemma remove_apartment_info_keeps P x :
  sforall P x = true → sforall P (remove_apartment_info x) = true.
Proof. intros. unfold remove_apartment_info, re_sub_empty. by do 2 apply sforall_re_sub_from. Qed.

Lemma clean_address_str s :
  clean_address (Str s) =
    let x := strip (lower s) in
    if contains "unk" x || contains "n/a" x || String.eqb x "same" || String.eqb x "none"
    then Ok None else Ok (Some (remove_apartment_info x)).
Proof. reflexivity. Qed.

(** C2 (amended). A cleaned street that is trimmed, is not itself one of the
    markers of a missing street and holds no "apt" is a fixed point of
    [clean_address]: cleaning it again changes nothing. *)
Theorem clean_address_settled s t :
  clean_address (Str s) = Ok (Some t) →
  strip t = t →
  contains "unk" t = false → t ≠ "same" → t ≠ "none" →
  contains "apt" t = false →
  clean_address (Str t) = Ok (Some t).
Proof.
  rewrite !clean_address_str. cbv zeta.
  intros Hs Htrim Hunk Hsame Hnone Hapt.
  destruct (_ || _) in Hs; [done|]. injection Hs as Ht.
  assert (sforall street_char t = true) as Hchars
    by (subst t; apply remove_apartment_info_street_chars).
  assert (lower t = t) as Hlow.
  { apply smap_id. subst t. apply remove_apartment_info_keeps, sforall_strip.
    apply sforall_smap. intros c. rewrite lower_char_idem. apply Ascii.eqb_refl. }
  rewrite Hlow, Htrim, Hunk, (street_chars_no_slash _ Hchars).
  apply String.eqb_neq in Hsame, Hnone. rewrite Hsame, Hnone. cbn [orb].
  do 2 f_equal. unfold remove_apartment_info.
  rewrite (re_sub_apartment_id _ Hchars Hapt).
  unfold junk_re. rewrite re_sub_empty_class. apply sfilter_id.
  eapply sforall_impl; [|exact Hchars]. intros c. cbv beta. by intros ->.
Qed.

Lemma clean_address_settled_witness :
  clean_address (Str "123 main st") = Ok (Some "123 main st").
Proof.
  apply (clean_address_settled "123 Main St" "123 main st");
    [reflexivity | reflexivity | reflexivity | discriminate | discriminate | reflexivity].
Defined.

(** Each condition of [clean_address_settled] is needed: removing the
    characters outside the street class can leave a marker of a missing
    street or a new "apt" behind. *)
Lemma clean_address_resettles :
  clean_address (Str "u-nk") = Ok (Some "unk")
  ∧ clean_address (Str "unk") = Ok None
  ∧ clean_address (Str "sa-me") = Ok (Some "same")
  ∧ clean_address (Str "same") = Ok None
  ∧ clean_address (Str "a-pt 5") = Ok (Some "apt 5")
  ∧ clean_address (Str "apt 5") = Ok (Some EmptyString).
Proof. by repeat split. Qed.

(** C2 as stated fails: cleaning the street of the end-to-end example
    leaves the blank before the apartment, and cleaning that result again
    trims it. *)
Lemma clean_address_not_idempotent :
  clean_address (Str "123 Main St Apt #4B") = Ok (Some "123 main st ")
  ∧ clean_address (Str "123 main st ") = Ok (Some "123 main st")
  ∧ clean_address (Str "123 main st ") ≠ clean_address (Str "123 Main St Apt #4B").
Proof. split; [reflexivity | split; [reflexivity | discriminate]]. Qed.

(** ** Trimming *)

Lemma lstrip_idem s : lstrip (lstrip s) = lstrip s.
Proof.
  induction s as [|c s IH]; [done|]. cbn [lstrip].
  destruct (isspace c) eqn:Hc; [done|]. cbn [lstrip]. by rewrite Hc.
Qed.

Lemma rstrip_idem s : rstrip (rstrip s) = rstrip s.
Proof.
  induction s as [|c s IH]; [done|]. cbn [rstrip].
  destruct (rstrip s) as [|d r] eqn:Hr.
  - destruct (isspace c) eqn:Hc; [done|]. cbn [rstrip]. by rewrite Hc.
  - cbn [rstrip] in *. by rewrite IH.
Qed.

Lemma rstrip_lstrip s : rstrip s = s → rstrip (lstrip s) = lstrip s.
Proof.
  induction s as [|c s IH]; [done|]. intros H. cbn [lstrip].
  destruct (isspace c) eqn:Hc; [|done].
  apply IH. cbn [rstrip] in H. destruct (rstrip s) as [|d r].
  - by rewrite Hc in H.
  - by injection H.
Qed.

Lemma strip_idem s : strip (strip s) = strip s.
Proof.
  unfold strip. rewrite (rstrip_lstrip (rstrip s)) by apply rstrip_idem.
  apply lstrip_idem.
Qed.

(** ** The address builder *)

(** What a successful incident address is made of. *)
Lemma create_address_incident_inv (row : Series) address subbed :
  create_address row "incident" = Ok (address, subbed) →
  ∃ street city zip_code,
    street_of row "incident_street" = Ok street
    ∧ city_sub row = Ok (city, subbed)
    ∧ zip_of row "incident_zip" = Ok zip_code
    ∧ address = strip (upper (street +:+ " " +:+ city +:+ " " +:+ zip_code)).
Proof.
  unfold create_address.
  change (String.eqb "incident" "incident") with true. cbv iota.
  destruct (street_of row "incident_street") as [street|]; [|done].
  destruct (city_sub row) as [[city sub]|]; [|done].
  destruct (zip_of row "incident_zip") as [zip_code|]; [|done].
  cbn. intros [= <- <-]. by eauto 10.
Qed.

(** C1 (amended). The record of the end-to-end example yields the street
    and the city two blanks apart, with the substitution flag set.  In
    general the incident address is the upper-cased street, city and zip
    slots with one blank after the street slot and one after the city slot,
    whatever the slots hold, trimmed at both ends. *)
Theorem create_address_incident_shape :
  create_address example_record "incident"
    = Ok ("123 MAIN ST  COLUMBIA 65201", true)
  ∧ ∀ (row : Series) address subbed,
      create_address row "incident" = Ok (address, subbed) →
      (∃ street city zip_code,
          street_of row "incident_street" = Ok street
          ∧ city_sub row = Ok (city, subbed)
          ∧ zip_of row "incident_zip" = Ok zip_code
          ∧ address = strip (upper (street +:+ " " +:+ city +:+ " " +:+ zip_code)))
      ∧ strip address = address.
Proof.
  split; [by vm_compute|].
  intros row address subbed H. split; [by apply create_address_incident_inv|].
  apply create_address_incident_inv in H as (street & city & zip_code & _ & _ & _ & ->).
  apply strip_idem.
Qed.

Lemma create_address_incident_shape_witness :
  strip "123 MAIN ST  COLUMBIA 65201" = "123 MAIN ST  COLUMBIA 65201".
Proof.
  apply (proj2 create_address_incident_shape example_record _ true).
  by vm_compute.
Defined.

(** C1 as stated fails: the address of the example is not the one with a
    single blank between street and city. *)
Lemma create_address_example_two_blanks :
  create_address example_record "incident"
    ≠ Ok ("123 MAIN ST COLUMBIA 65201", true).
Proof. by vm_compute. Qed.

(** C3: in the death context a missing city is not replaced by the empty
    str: [title] is called on it and the call raises. *)
Theorem create_address_death_missing_city_raises :
  create_address death_record_without_city "death" = Raise AttributeError.
Proof. by vm_compute. Qed.

(** A cell of a text column: a str or missing. *)
Lemma street_of_text (row : Series) key :
  row !! key = Some NA ∨ (∃ s, row !! key = Some (Str s)) →
  ∃ street, street_of row key = Ok street.
Proof.
  unfold street_of, getitem. intros [->|[s ->]]; [cbn; by eauto|].
  change (notna (Str s)) with true. cbv iota. cbn [mbind res_bind].
  rewrite clean_address_str. cbv zeta. destruct (_ || _); by eauto.
Qed.

Lemma zip_of_present (row : Series) key :
  is_Some (row !! key) → ∃ zip_code, zip_of row key = Ok zip_code.
Proof. unfold zip_of, getitem. intros [v ->]. cbn. by eauto. Qed.

Lemma city_sub_text (row : Series) :
  row !! "incident_city" = Some NA ∨ (∃ s, row !! "incident_city" = Some (Str s)) →
  row !! "residence_city" = Some NA ∨ (∃ s, row !! "residence_city" = Some (Str s)) →
  ∃ city subbed, city_sub row = Ok (city, subbed).
Proof.
  unfold city_sub, getitem. intros [->|[s ->]]; cbn; [|by eauto].
  intros [->|[s ->]]; cbn; by eauto.
Qed.

(** The part of C3 that holds: in the incident context a record whose four
    address cells are strs or missing always gets an address. *)
Lemma create_address_incident_total (row : Series) :
  (∀ key, key ∈ ["incident_street"; "incident_city"; "residence_city"; "incident_zip"] →
          row !! key = Some NA ∨ ∃ s, row !! key = Some (Str s)) →
  ∃ address subbed, create_address row "incident" = Ok (address, subbed).
Proof.
  intros H. unfold create_address.
  change (String.eqb "incident" "incident") with true. cbv iota.
  destruct (street_of_text row "incident_street") as [street ->]; [apply H; in_list|].
  destruct (city_sub_text row) as (city & subbed & ->); [apply H; in_list..|].
  destruct (zip_of_present row "incident_zip") as [zip_code ->].
  { destruct (H "incident_zip") as [->|[s ->]]; [in_list|done..]. }
  cbn. by eauto.
Qed.

(** C7. [city_sub] keeps a present incident city (title-cased, trimmed, flag
    false), falls back on the residence city when the incident city is
    missing (flag true), and yields the empty city with the flag false when
    both are missing; the flag and the city of [create_address] in the
    incident context are these. *)
Theorem city_sub_cases (row : Series) :
  (∀ c, row !! "incident_city" = Some (Str c) →
        city_sub row = Ok (strip (title c), false)
        ∧ ∀ address subbed,
            create_address row "incident" = Ok (address, subbed) →
            subbed = false
            ∧ ∃ street zip_code,
                address = strip (upper (street +:+ " " +:+ strip (title c)
                                          +:+ " " +:+ zip_code)))
  ∧ (∀ c, row !! "incident_city" = Some NA →
          row !! "residence_city" = Some (Str c) →
          city_sub row = Ok (strip (title c), true)
          ∧ ∀ address subbed,
              create_address row "incident" = Ok (address, subbed) →
              subbed = true
              ∧ ∃ street zip_code,
                  address = strip (upper (street +:+ " " +:+ strip (title c)
                                            +:+ " " +:+ zip_code)))
  ∧ (row !! "incident_city" = Some NA →
     row !! "residence_city" = Some NA →
     city_sub row = Ok (EmptyString, false)
     ∧ ∀ address subbed,
         create_address row "incident" = Ok (address, subbed) → subbed = false).
Proof.
  split; [|split].
  - intros c Hc.
    assert (city_sub row = Ok (strip (title c), false)) as Hsub
      by (unfold city_sub, getitem; by rewrite Hc).
    split; [done|]. intros address subbed H.
    apply create_address_incident_inv in H as (street & city & zip_code & _ & H & _ & ->).
    rewrite Hsub in H. injection H as <- <-. by eauto.
  - intros c Hi Hr.
    assert (city_sub row = Ok (strip (title c), true)) as Hsub
      by (unfold city_sub, getitem; by rewrite Hi, Hr).
    split; [done|]. intros address subbed H.
    apply create_address_incident_inv in H as (street & city & zip_code & _ & H & _ & ->).
    rewrite Hsub in H. injection H as <- <-. by eauto.
  - intros Hi Hr.
    assert (city_sub row = Ok (EmptyString, false)) as Hsub
      by (unfold city_sub, getitem; by rewrite Hi, Hr).
    split; [done|]. intros address subbed H.
    apply create_address_incident_inv in H as (street & city & zip_code & _ & H & _ & ->).
    rewrite Hsub in H. by injection H as <- <-.
Qed.

Lemma city_sub_cases_witness :
  city_sub example_record = Ok ("Columbia", true)
  ∧ ∀ address subbed,
      create_address example_record "incident" = Ok (address, subbed) →
      subbed = true
      ∧ ∃ street zip_code,
          address = strip (upper (street +:+ " " +:+ "Columbia" +:+ " " +:+ zip_code)).
Proof.
  apply (proj1 (proj2 (city_sub_cases example_record)) "columbia");
    by vm_compute.
Defined.

(** C8. Any flag other than the two contexts makes [create_address] raise
    ValueError, and any toggle other than the two axes makes
    [composite_lat_long] raise Exception, whatever the row holds. *)
Theorem invalid_argument_raises (row : Series) (flag toggle : string) :
  (flag ≠ "incident" → flag ≠ "death" →
   create_address row flag
     = Raise (ValueError "flag must be either 'incident' or 'death'"))
  ∧ (toggle ≠ "lat" → toggle ≠ "long" →
     composite_lat_long row toggle
       = Raise (Exception "expected toggle value to be either `lat` or `long`")).
Proof.
  split; intros H1%String.eqb_neq H2%String.eqb_neq.
  - unfold create_address. by rewrite H1, H2.
  - unfold composite_lat_long. by rewrite H1, H2.
Qed.

Lemma invalid_argument_raises_witness :
  create_address example_record "birth"
    = Raise (ValueError "flag must be either 'incident' or 'death'")
  ∧ composite_lat_long example_record "latitude"
    = Raise (Exception "expected toggle value to be either `lat` or `long`").
Proof.
  split.
  - apply (proj1 (invalid_argument_raises example_record "birth" "latitude"));
      discriminate.
  - apply (proj2 (invalid_argument_raises example_record "birth" "latitude"));
      discriminate.
Defined.

(** ** The keyword classifier *)

Lemma startswith_spec w s : startswith w s = true ↔ ∃ post, s = w +:+ post.
Proof.
  revert s. induction w as [|a w IH]; intros s; cbn [startswith String.app].
  - split; [by eauto|done].
  - destruct s as [|b s].
    + split; [done|by intros [post ?]].
    + rewrite andb_true_iff, Ascii.eqb_eq, IH. split.
      * intros [-> [post ->]]. by eauto.
      * intros [post [= -> ->]]. by eauto.
Qed.

Lemma contains_spec w s :
  contains w s = true ↔ ∃ pre post, s = pre +:+ w +:+ post.
Proof.
  induction s as [|c s IH]; cbn [contains]; rewrite orb_true_iff, startswith_spec.
  - split.
    + intros [[post ->]|?]; [|done]. by exists EmptyString, post.
    + intros (pre & post & H). left. destruct pre as [|? ?]; [by eauto|done].
  - rewrite IH. split.
    + intros [[post ->]|(pre & post & ->)].
      * by exists EmptyString, post.
      * by exists (String c pre), post.
    + intros (pre & post & H). destruct pre as [|c' pre].
      * left. by eauto.
      * right. injection H as -> ->. by eauto.
Qed.

(** C9. [search_handler] is false on null text, and on a text it is true
    exactly when the lower-cased text has one of the terms as a substring
    (hence false when it has none of them). *)
Theorem search_handler_spec (search_words : list string) :
  search_handler None search_words = false
  ∧ ∀ text,
      (search_handler (Some text) search_words = true
       ↔ ∃ word, word ∈ search_words
                 ∧ ∃ pre post, lower text = pre +:+ word +:+ post)
      ∧ ((∀ word, word ∈ search_words →
                  ¬ ∃ pre post, lower text = pre +:+ word +:+ post) →
         search_handler (Some text) search_words = false).
Proof.
  split; [done|]. intros text.
  assert (search_handler (Some text) search_words = true
          ↔ ∃ word, word ∈ search_words
                    ∧ ∃ pre post, lower text = pre +:+ word +:+ post) as Hiff.
  { cbn [search_handler]. rewrite existsb_exists. split.
    - intros (word & Hin%list_elem_of_In & H%contains_spec). by eauto.
    - intros (word & Hin%list_elem_of_In & H%contains_spec). by eauto. }
  split; [done|]. intros Hnone.
  apply not_true_is_false. intros E.
  apply Hiff in E as (word & Hin & H). by destruct (Hnone word Hin).
Qed.

Lemma search_handler_spec_witness :
  search_handler (Some "Death due to fentanyl and heroin toxicity")
                 ["fentanyl"; "heroin"; "oxycodone"] = true.
Proof.
  apply (proj1 (proj2 (search_handler_spec ["fentanyl"; "heroin"; "oxycodone"]) _)).
  exists "fentanyl". split; [in_list|].
  by exists "death due to ", " and heroin toxicity".
Defined.

(** ** The reconciler *)

Lemma res_mapM_cons {A B} (f : A → res B) a l l' :
  res_mapM f (a :: l) = Ok l' ↔
  ∃ b bs, f a = Ok b ∧ res_mapM f l = Ok bs ∧ l' = b :: bs.
Proof.
  cbn [res_mapM]. split.
  - destruct (f a) as [b|]; [|done]. cbn.
    destruct (res_mapM f l) as [bs|]; [|done]. cbn. intros [= <-]. by eauto.
  - intros (b & bs & -> & -> & ->). done.
Qed.

Lemma res_mapM_Forall2 {A B} (f : A → res B) l l' :
  res_mapM f l = Ok l' ↔ Forall2 (fun a b => f a = Ok b) l l'.
Proof.
  revert l'. induction l as [|a l IH]; intros l'.
  - cbn. split; [intros [= <-]; constructor|by intros ->%Forall2_nil_inv_l].
  - rewrite res_mapM_cons. split.
    + intros (b & bs & Hb & Hbs%IH & ->). by constructor.
    + intros (b & bs & Hb & Hbs%IH & ->)%Forall2_cons_inv_l. by eauto.
Qed.

Lemma set_column_cons (d : Series) ds name v vs :
  set_column (d :: ds) name (v :: vs) = <[name := v]> d :: set_column ds name vs.
Proof. reflexivity. Qed.

(** The column-wise passes of [combine_geo_results] over the merged frame
    succeed exactly when [enrich_row] succeeds on every row, with the same
    rows as result. *)
Lemma column_passes_rowwise (df0 out : DataFrame) :
  (∃ score lat long,
      getattr_column df0 "geocoded_score" = Ok score
      ∧ let df1 := set_column df0 "recovered"
                     (map (fun x => if notna x then Int 1 else Int 0) score) in
        res_mapM (fun row => composite_lat_long row "lat") df1 = Ok lat
        ∧ let df2 := set_column df1 "final_latitude" lat in
          res_mapM (fun row => composite_lat_long row "long") df2 = Ok long
          ∧ out = set_column df2 "final_longitude" long)
  ↔ Forall2 (fun d o => enrich_row d = Ok o) df0 out.
Proof.
  cbv zeta. unfold getattr_column. split.
  - revert out. induction df0 as [|d ds IH];
      intros out (score & lat & long & H1 & H2 & H3 & ->).
    + injection H1 as <-. injection H2 as <-. injection H3 as <-. constructor.
    + apply res_mapM_cons in H1 as (s & ss & Hs & Hss & ->).
      cbn [map] in *. rewrite set_column_cons in *.
      apply res_mapM_cons in H2 as (la & las & Hla & Hlas & ->).
      rewrite set_column_cons in *.
      apply res_mapM_cons in H3 as (lo & los & Hlo & Hlos & ->).
      rewrite set_column_cons. constructor.
      * unfold enrich_row. destruct (d !! "geocoded_score") as [s'|]; [|done].
        injection Hs as ->. cbn [mbind res_bind]. rewrite Hla. cbn [mbind res_bind].
        by rewrite Hlo.
      * apply IH. by eauto 10.
  - induction 1 as [|d o ds os Hd _ (ss & las & los & Hss & Hlas & Hlos & ->)].
    + by exists [], [], [].
    + unfold enrich_row in Hd. destruct (d !! "geocoded_score") as [s|] eqn:Hs; [|done].
      cbn [mbind res_bind] in Hd.
      destruct (composite_lat_long _ "lat") as [la|] eqn:Hla in Hd; [|done].
      cbn [mbind res_bind] in Hd.
      destruct (composite_lat_long _ "long") as [lo|] eqn:Hlo in Hd; [|done].
      injection Hd as <-.
      exists (s :: ss), (la :: las), (lo :: los).
      cbn [map]. rewrite !set_column_cons, !res_mapM_cons.
      split; [|split; [|split]]; [rewrite Hs| | |]; by eauto 10.
Qed.

Lemma combine_geo_results_rows (coded_df original_df out : DataFrame) :
  combine_geo_results coded_df original_df = Ok out ↔
  ∃ right df0,
    select_columns geocoded_columns coded_df = Ok right
    ∧ merge_left original_df right "casenumber" geocoded_columns = Ok df0
    ∧ Forall2 (fun d o => enrich_row d = Ok o) df0 out.
Proof.
  unfold combine_geo_results. split.
  - destruct (select_columns _ _) as [right|] eqn:Hsel; [|done]. cbn [mbind res_bind].
    destruct (merge_left _ _ _ _) as [df0|] eqn:Hmerge; [|done]. cbn [mbind res_bind].
    intros H. exists right, df0. split; [done|]. split; [done|].
    apply column_passes_rowwise.
    destruct (getattr_column _ _) as [score|]; [|done]. cbn [mbind res_bind] in H.
    destruct (res_mapM _ _) as [lat|] eqn:Hlat in H; [|done]. cbn [mbind res_bind] in H.
    destruct (res_mapM _ _) as [long|] eqn:Hlong in H; [|done]. injection H as <-.
    by exists score, lat, long.
  - intros (right & df0 & Hsel & Hmerge
             & (score & lat & long & Hscore & H)%column_passes_rowwise).
    cbv zeta in H. destruct H as (Hlat & Hlong & ->).
    rewrite Hsel. cbn [mbind res_bind]. rewrite Hmerge. cbn [mbind res_bind].
    rewrite Hscore. cbn [mbind res_bind]. rewrite Hlat. cbn [mbind res_bind].
    by rewrite Hlong.
Qed.

Lemma composite_lat_inv (row : Series) v :
  composite_lat_long row "lat" = Ok v →
  ∃ lat, row !! "latitude" = Some lat
         ∧ if notna lat then v = lat
           else ∃ g, row !! "geocoded_latitude" = Some g
                     ∧ v = if notna g then g else NA.
Proof.
  unfold composite_lat_long, getitem.
  change (String.eqb "lat" "lat") with true. cbv iota.
  destruct (row !! "latitude") as [lat|]; [|done]. cbn [mbind res_bind].
  intros H. exists lat. split; [done|]. destruct (notna lat); [by injection H|].
  destruct (row !! "geocoded_latitude") as [g|]; [|done]. cbn [mbind res_bind] in H.
  exists g. split; [done|]. by destruct (notna g); injection H.
Qed.

Lemma composite_long_inv (row : Series) v :
  composite_lat_long row "long" = Ok v →
  ∃ long, row !! "longitude" = Some long
          ∧ if notna long then v = long
            else ∃ g, row !! "geocoded_longitude" = Some g
                      ∧ v = if notna g then g else NA.
Proof.
  unfold composite_lat_long, getitem.
  change (String.eqb "long" "lat") with false.
  change (String.eqb "long" "long") with true. cbv iota.
  destruct (row !! "longitude") as [long|]; [|done]. cbn [mbind res_bind].
  intros H. exists long. split; [done|]. destruct (notna long); [by injection H|].
  destruct (row !! "geocoded_longitude") as [g|]; [|done]. cbn [mbind res_bind] in H.
  exists g. split; [done|]. by destruct (notna g); injection H.
Qed.

Lemma enrich_row_inv (d o : Series) :
  enrich_row d = Ok o →
  ∃ s la lo,
    d !! "geocoded_score" = Some s
    ∧ composite_lat_long
        (<["recovered" := if notna s then Int 1 else Int 0]> d) "lat" = Ok la
    ∧ composite_lat_long
        (<["final_latitude" := la]>
           (<["recovered" := if notna s then Int 1 else Int 0]> d)) "long" = Ok lo
    ∧ o = <["final_longitude" := lo]>
            (<["final_latitude" := la]>
               (<["recovered" := if notna s then Int 1 else Int 0]> d)).
Proof.
  unfold enrich_row. destruct (d !! "geocoded_score") as [s|]; [|done].
  cbn [mbind res_bind].
  destruct (composite_lat_long _ "lat") as [la|] eqn:Hla; [|done]. cbn [mbind res_bind].
  destruct (composite_lat_long _ "long") as [lo|] eqn:Hlo; [|done].
  intros [= <-]. by exists s, la, lo.
Qed.

Lemma combine_geo_results_row (coded_df original_df df : DataFrame) (row : Series) :
  combine_geo_results coded_df original_df = Ok df → row ∈ df →
  ∃ d, enrich_row d = Ok row.
Proof.
  intros (right & df0 & _ & _ & H)%combine_geo_results_rows
         [i Hi]%list_elem_of_lookup.
  destruct (Forall2_lookup_r _ _ _ _ _ H Hi) as (d & _ & Hd). by eauto.
Qed.

(** C4. In the reconciled frame a row has [recovered] 1 exactly when its
    [geocoded_score] is not null, and 0 otherwise, whatever its geocoded
    coordinates are. *)
Theorem recovered_iff_score (coded_df original_df df : DataFrame) (row : Series) :
  combine_geo_results coded_df original_df = Ok df → row ∈ df →
  ∃ score,
    row !! "geocoded_score" = Some score
    ∧ row !! "recovered" = Some (if notna score then Int 1 else Int 0)
    ∧ (row !! "recovered" = Some (Int 1) ↔ score ≠ NA).
Proof.
  intros Hdf Hrow.
  destruct (combine_geo_results_row _ _ _ _ Hdf Hrow) as [d Hd].
  apply enrich_row_inv in Hd as (s & la & lo & Hs & _ & _ & ->).
  exists s. simplify_map_eq. split; [done|]. split; [done|].
  destruct s; cbn; split; done.
Qed.

(** C5. In the reconciled frame [final_latitude] is the raw latitude when
    that is not null, else the geocoded latitude when that is not null,
    else null; [final_longitude] follows the same rule on its own columns,
    so the two axes can come from different sources. *)
Theorem final_coordinates_first_non_null
  (coded_df original_df df : DataFrame) (row : Series) :
  combine_geo_results coded_df original_df = Ok df → row ∈ df →
  (∃ lat, row !! "latitude" = Some lat
          ∧ if notna lat then row !! "final_latitude" = Some lat
            else ∃ g, row !! "geocoded_latitude" = Some g
                      ∧ row !! "final_latitude" = Some (if notna g then g else NA))
  ∧ (∃ long, row !! "longitude" = Some long
             ∧ if notna long then row !! "final_longitude" = Some long
               else ∃ g, row !! "geocoded_longitude" = Some g
                         ∧ row !! "final_longitude" = Some (if notna g then g else NA)).
Proof.
  intros Hdf Hrow.
  destruct (combine_geo_results_row _ _ _ _ Hdf Hrow) as [d Hd].
  apply enrich_row_inv in Hd as (s & la & lo & Hs & Hla & Hlo & ->).
  apply composite_lat_inv in Hla as (lat & Hlat & Hla).
  apply composite_long_inv in Hlo as (long & Hlong & Hlo).
  split.
  - exists lat. simplify_map_eq. split; [done|].
    destruct (notna lat); [by subst|]. destruct Hla as (g & Hg & ->).
    exists g. by simplify_map_eq.
  - exists long. simplify_map_eq. split; [done|].
    destruct (notna long); [by subst|]. destruct Hlo as (g & Hg & ->).
    exists g. by simplify_map_eq.
Qed.

Lemma combine_geo_results_example :
  combine_geo_results example_coded example_original = Ok [example_reconciled].
Proof. vm_cast_no_check (eq_refl (Ok [example_reconciled])). Qed.

Lemma combine_geo_results_unscored :
  combine_geo_results unscored_coded unscored_original = Ok [unscored_reconciled].
Proof. vm_cast_no_check (eq_refl (Ok [unscored_reconciled])). Qed.

Lemma recovered_iff_score_witness :
  unscored_reconciled !! "geocoded_latitude" = Some (Float "38.9")
  ∧ ∃ score,
      unscored_reconciled !! "geocoded_score" = Some score
      ∧ unscored_reconciled !! "recovered"
        = Some (if notna score then Int 1 else Int 0)
      ∧ (unscored_reconciled !! "recovered" = Some (Int 1) ↔ score ≠ NA).
Proof.
  split; [by vm_compute|].
  apply (recovered_iff_score unscored_coded unscored_original
           [unscored_reconciled] unscored_reconciled).
  - exact combine_geo_results_unscored.
  - apply list_elem_of_here.
Defined.

Lemma final_coordinates_first_non_null_witness :
  example_reconciled !! "final_latitude" = Some (Float "38.95")
  ∧ example_reconciled !! "final_longitude" = Some (Float "-92.33")
  ∧ (∃ lat, example_reconciled !! "latitude" = Some lat
            ∧ if notna lat then example_reconciled !! "final_latitude" = Some lat
              else ∃ g, example_reconciled !! "geocoded_latitude" = Some g
                        ∧ example_reconciled !! "final_latitude"
                          = Some (if notna g then g else NA))
  ∧ (∃ long, example_reconciled !! "longitude" = Some long
             ∧ if notna long then example_reconciled !! "final_longitude" = Some long
               else ∃ g, example_reconciled !! "geocoded_longitude" = Some g
                         ∧ example_reconciled !! "final_longitude"
                           = Some (if notna g then g else NA)).
Proof.
  split; [by vm_compute|]. split; [by vm_compute|].
  apply (final_coordinates_first_non_null example_coded example_original
           [example_reconciled] example_reconciled).
  - exact combine_geo_results_example.
  - apply list_elem_of_here.
Defined.

(** *** The frame of [combine_geo_results] *)

Lemma getitem_Some (row : Series) key v : row !! key = Some v → getitem row key = Ok v.
Proof. unfold getitem. by intros ->. Qed.

Lemma select_row_spec (columns : list string) (row : Series) :
  (∀ c, c ∈ columns → is_Some (row !! c)) →
  ∃ kvs, res_mapM (fun c => v ← getitem row c; Ok (c, v)) columns = Ok kvs
         ∧ ∀ c, c ∈ columns → (list_to_map kvs : Series) !! c = row !! c.
Proof.
  induction columns as [|c0 cs IH]; intros H.
  - exists []. split; [done|]. by intros c Hc%elem_of_nil.
  - destruct (H c0) as [v0 Hv0]; [by left|].
    destruct IH as (kvs & Hk & Hl); [intros c Hc; apply H; by right|].
    exists ((c0, v0) :: kvs). split.
    + cbn [res_mapM]. rewrite (getitem_Some _ _ _ Hv0). cbn [mbind res_bind].
      by rewrite Hk.
    + intros c Hc. rewrite list_to_map_cons. destruct (decide (c0 = c)) as [->|Hne].
      * by rewrite lookup_insert_eq.
      * rewrite lookup_insert_ne by done. apply Hl.
        apply elem_of_cons in Hc as [?|?]; [congruence|done].
Qed.

Lemma select_columns_spec (columns : list string) (coded : DataFrame) :
  Forall (fun r : Series => ∀ c, c ∈ columns → is_Some (r !! c)) coded →
  ∃ right,
    select_columns columns coded = Ok right
    ∧ Forall2 (fun r r' : Series => ∀ c, c ∈ columns → r' !! c = r !! c) coded right.
Proof.
  induction 1 as [|r rs Hr _ (right & Hsel & Hall)].
  - by exists [].
  - destruct (select_row_spec columns r Hr) as (kvs & Hk & Hl).
    exists (list_to_map kvs :: right). split; [|by constructor].
    unfold select_columns in *. cbn [res_mapM]. rewrite Hk. cbn [mbind res_bind].
    by rewrite Hsel.
Qed.

(** With unique keys at most one row of the right frame matches. *)
Lemma filter_key_unique (on : string) (right : DataFrame) (key : cell) :
  NoDup ((.!! on) <$> right) →
  (length (filter (fun r : Series => r !! on = Some key) right) ≤ 1)%nat.
Proof.
  induction right as [|r rs IH]; [cbn; lia|].
  rewrite fmap_cons, NoDup_cons. intros [Hnotin Hnd]. rewrite filter_cons.
  destruct (decide (r !! on = Some key)) as [Hr|Hr]; [|by apply IH].
  assert (filter (fun r : Series => r !! on = Some key) rs = []) as ->; [|done].
  apply elem_of_nil_inv. intros x [Hx Hin]%list_elem_of_filter.
  apply Hnotin. rewrite Hr, <- Hx. by apply list_elem_of_fmap_2.
Qed.

(** A left join against unique keys keeps the rows of the left frame, one
    joined row each, in order. *)
Lemma merge_left_unique (left right : DataFrame) (on : string) columns :
  Forall (fun l : Series => is_Some (l !! on)) left →
  NoDup ((.!! on) <$> right) →
  ∃ df0, merge_left left right on columns = Ok df0
         ∧ Forall2 (fun l d : Series => ∃ r, d = join_row on columns l r) left df0.
Proof.
  intros Hleft Hnd. unfold merge_left.
  enough (∃ df0,
            res_mapM (fun l : Series =>
                key ← getitem l on;
                match filter (fun r : Series => r !! on = Some key) right with
                | [] => Ok [join_row on columns l None]
                | matches =>
                    Ok (map (fun r => join_row on columns l (Some r)) matches)
                end) left = Ok ((fun d => [d]) <$> df0)
            ∧ Forall2 (fun l d : Series => ∃ r, d = join_row on columns l r) left df0)
    as (df0 & -> & H).
  { exists df0. split; [|done]. cbn [mbind res_bind]. f_equal.
    clear. induction df0 as [|d ds IH]; [done|]. cbn. by rewrite IH. }
  induction Hleft as [|l ls [key Hkey] _ (df0 & Hdf0 & Hall)].
  - by exists [].
  - pose proof (filter_key_unique on right key Hnd) as Hlen.
    destruct (filter (fun r : Series => r !! on = Some key) right)
      as [|r [|r' rs]] eqn:Hf.
    + exists (join_row on columns l None :: df0). split; [|constructor; by eauto].
      apply res_mapM_cons. eexists _, _. split; [|split; [exact Hdf0|]].
      * cbv beta. rewrite (getitem_Some _ _ _ Hkey). cbn [mbind res_bind].
        rewrite Hf. reflexivity.
      * reflexivity.
    + exists (join_row on columns l (Some r) :: df0). split; [|constructor; by eauto].
      apply res_mapM_cons. eexists _, _. split; [|split; [exact Hdf0|]].
      * cbv beta. rewrite (getitem_Some _ _ _ Hkey). cbn [mbind res_bind].
        rewrite Hf. reflexivity.
      * reflexivity.
    + cbn in Hlen. lia.
Qed.

Lemma clashes_absent on columns (l : Series) c :
  l !! c = None → clashes on columns l c = false.
Proof.
  intros H. apply bool_decide_eq_false. rewrite H. intros (_ & _ & []). done.
Qed.

Lemma clashes_key on columns (l : Series) : clashes on columns l on = false.
Proof. apply bool_decide_eq_false. by intros []. Qed.

(** Without a column in common but the key, the join adds the four
    geocoded columns to the left row. *)
Lemma join_row_disjoint (l : Series) (r : option Series) :
  (∀ c, c ∈ added_columns → l !! c = None) →
  ∃ glat glong gscore gaddr,
    join_row "casenumber" geocoded_columns l r
    = <["geocoded_latitude" := glat]>
        (<["geocoded_longitude" := glong]>
           (<["geocoded_score" := gscore]>
              (<["geocoded_address" := gaddr]> l))).
Proof.
  intros H.
  assert (l !! "geocoded_latitude" = None) as H1 by (apply H; in_list).
  assert (l !! "geocoded_longitude" = None) as H2 by (apply H; in_list).
  assert (l !! "geocoded_score" = None) as H3 by (apply H; in_list).
  assert (l !! "geocoded_address" = None) as H4 by (apply H; in_list).
  unfold join_row, suffix_left, geocoded_columns. cbn [foldr].
  rewrite H1, H2, H3, H4, clashes_key, !clashes_absent by done.
  destruct (l !! "casenumber"); by eauto.
Qed.

Lemma enrich_row_joined (l : Series) glat glong gscore gaddr :
  is_Some (l !! "latitude") → is_Some (l !! "longitude") →
  ∃ rec flat flong,
    enrich_row (<["geocoded_latitude" := glat]>
                  (<["geocoded_longitude" := glong]>
                     (<["geocoded_score" := gscore]>
                        (<["geocoded_address" := gaddr]> l))))
    = Ok (<["final_longitude" := flong]>
            (<["final_latitude" := flat]>
               (<["recovered" := rec]>
                  (<["geocoded_latitude" := glat]>
                     (<["geocoded_longitude" := glong]>
                        (<["geocoded_score" := gscore]>
                           (<["geocoded_address" := gaddr]> l))))))).
Proof.
  intros [lat Hlat] [long Hlong]. unfold enrich_row.
  set (d := <["geocoded_latitude" := glat]> _).
  assert (d !! "geocoded_score" = Some gscore) as -> by (subst d; by simplify_map_eq).
  cbn [mbind res_bind].
  set (d1 := <["recovered" := _]> d).
  assert (∃ la, composite_lat_long d1 "lat" = Ok la) as [la ->].
  { unfold composite_lat_long.
    change (String.eqb "lat" "lat") with true. cbv iota.
    rewrite (getitem_Some d1 "latitude" lat) by (subst d1 d; by simplify_map_eq).
    cbn [mbind res_bind]. destruct (notna lat); [by eauto|].
    rewrite (getitem_Some d1 "geocoded_latitude" glat)
      by (subst d1 d; by simplify_map_eq).
    cbn [mbind res_bind]. destruct (notna glat); by eauto. }
  cbn [mbind res_bind].
  set (d2 := <["final_latitude" := _]> d1).
  assert (∃ lo, composite_lat_long d2 "long" = Ok lo) as [lo ->].
  { unfold composite_lat_long.
    change (String.eqb "long" "lat") with false.
    change (String.eqb "long" "long") with true. cbv iota.
    rewrite (getitem_Some d2 "longitude" long) by (subst d2 d1 d; by simplify_map_eq).
    cbn [mbind res_bind]. destruct (notna long); [by eauto|].
    rewrite (getitem_Some d2 "geocoded_longitude" glong)
      by (subst d2 d1 d; by simplify_map_eq).
    cbn [mbind res_bind]. destruct (notna glong); by eauto. }
  cbn [mbind res_bind]. by eauto.
Qed.

Lemma added_columns_frame (l : Series) v1 v2 v3 v4 v5 v6 v7 :
  let o : Series :=
    <["final_longitude" := v7]>
      (<["final_latitude" := v6]>
         (<["recovered" := v5]>
            (<["geocoded_latitude" := v1]>
               (<["geocoded_longitude" := v2]>
                  (<["geocoded_score" := v3]>
                     (<["geocoded_address" := v4]> l)))))) in
  (∀ c, c ∉ added_columns → o !! c = l !! c)
  ∧ dom o = dom l ∪ list_to_set added_columns.
Proof.
  cbv zeta. split.
  - intros c Hc. unfold added_columns in Hc. rewrite !not_elem_of_cons in Hc.
    destruct Hc as (? & ? & ? & ? & ? & ? & ? & _).
    by rewrite !lookup_insert_ne by done.
  - rewrite !dom_insert_L. unfold added_columns. cbn [list_to_set foldr].
    apply set_eq. intros c.
    rewrite !elem_of_union, !elem_of_singleton, elem_of_empty. tauto.
Qed.

Lemma select_keeps_keys (columns : list string) (coded right : DataFrame) key :
  key ∈ columns →
  Forall2 (fun r r' : Series => ∀ c, c ∈ columns → r' !! c = r !! c) coded right →
  (.!! key) <$> right = (.!! key) <$> coded.
Proof.
  intros Hkey. induction 1 as [|r r' rs rs' Hr _ IH]; [done|].
  cbn [fmap list_fmap]. cbn [fmap] in IH. by rewrite IH, (Hr _ Hkey).
Qed.

(** The frame of the model: with the columns that are read, none of those
    that are written and unique keys, every row keeps its cells and gains
    the seven added columns. *)
Lemma combine_geo_results_adds_columns (coded_df original_df : DataFrame) :
  Forall (fun r : Series => ∀ c, c ∈ geocoded_columns → is_Some (r !! c)) coded_df →
  Forall (fun l : Series =>
            (∀ c, c ∈ ["casenumber"; "latitude"; "longitude"] → is_Some (l !! c))
            ∧ (∀ c, c ∈ added_columns → l !! c = None)) original_df →
  NoDup ((.!! "casenumber") <$> coded_df) →
  ∃ df,
    combine_geo_results coded_df original_df = Ok df
    ∧ Forall2 (fun l o : Series =>
                 (∀ c, c ∉ added_columns → o !! c = l !! c)
                 ∧ dom o = dom l ∪ list_to_set added_columns) original_df df.
Proof.
  intros Hcoded Horig Hnd.
  destruct (select_columns_spec _ _ Hcoded) as (right & Hsel & Hright).
  destruct (merge_left_unique original_df right "casenumber" geocoded_columns)
    as (df0 & Hmerge & Hjoin).
  { eapply Forall_impl; [exact Horig|]. intros l [H _]. apply H. in_list. }
  { by rewrite (select_keeps_keys geocoded_columns coded_df right) by
      (done || in_list). }
  enough (∃ df, Forall2 (fun d o : Series => enrich_row d = Ok o) df0 df
                ∧ Forall2 (fun l o : Series =>
                     (∀ c, c ∉ added_columns → o !! c = l !! c)
                     ∧ dom o = dom l ∪ list_to_set added_columns) original_df df)
    as (df & Hdf & Hframe).
  { exists df. split; [|done]. apply combine_geo_results_rows. by eauto. }
  clear Hmerge Hsel Hright Hnd Hcoded.
  revert Horig. induction Hjoin as [|l d ls ds [r ->] _ IH]; intros Horig.
  - exists []. split; constructor.
  - apply Forall_cons in Horig as [[Hread Hfresh] Horig].
    destruct (IH Horig) as (df & Hdf & Hframe).
    destruct (join_row_disjoint l r Hfresh) as (glat & glong & gscore & gaddr & ->).
    destruct (enrich_row_joined l glat glong gscore gaddr)
      as (rec & flat & flong & Hrow); [apply Hread; in_list..|].
    eexists (_ :: df). split; [constructor; [exact Hrow|exact Hdf]|].
    constructor; [apply added_columns_frame|exact Hframe].
Qed.

Ltac each_column :=
  let c := fresh "c" in
  let Hc := fresh "Hc" in
  intros c Hc;
  repeat (apply elem_of_cons in Hc as [->|Hc]);
  [..|by apply elem_of_nil in Hc].

(** C10 (amended). For a non-empty original frame and str case numbers:
    when the geocoded frame has its five columns and unique case numbers,
    and the original frame has the three columns that are read and none of
    the seven that are written, [combine_geo_results] returns the original
    frame row for row: every row keeps each of its cells and gains exactly
    the seven added columns. *)
Theorem combine_geo_results_frame (coded_df original_df : DataFrame) :
  original_df ≠ [] →
  Forall (fun r : Series =>
            (∀ c, c ∈ geocoded_columns → is_Some (r !! c))
            ∧ ∃ s, r !! "casenumber" = Some (Str s)) coded_df →
  Forall (fun l : Series =>
            (∃ s, l !! "casenumber" = Some (Str s))
            ∧ (∀ c, c ∈ ["latitude"; "longitude"] → is_Some (l !! c))
            ∧ (∀ c, c ∈ added_columns → l !! c = None)) original_df →
  NoDup ((.!! "casenumber") <$> coded_df) →
  ∃ df,
    combine_geo_results coded_df original_df = Ok df
    ∧ Forall2 (fun l o : Series =>
                 (∀ c, c ∉ added_columns → o !! c = l !! c)
                 ∧ dom o = dom l ∪ list_to_set added_columns) original_df df.
Proof.
  intros _ Hcoded Horig Hnd. apply combine_geo_results_adds_columns; [| |done].
  - eapply Forall_impl; [exact Hcoded|]. by intros r [H _].
  - eapply Forall_impl; [exact Horig|]. intros l ([s Hs] & Hread & Hfresh).
    split; [|done]. intros c Hc.
    apply elem_of_cons in Hc as [->|Hc]; [by rewrite Hs|by apply Hread].
Qed.

Lemma combine_geo_results_frame_witness :
  ∃ df,
    combine_geo_results frame_coded frame_original = Ok df
    ∧ Forall2 (fun l o : Series =>
                 (∀ c, c ∉ added_columns → o !! c = l !! c)
                 ∧ dom o = dom l ∪ list_to_set added_columns) frame_original df.
Proof.
  apply (combine_geo_results_frame frame_coded frame_original).
  - done.
  - apply Forall_cons; split; [|by apply Forall_nil].
    split; [each_column; vm_compute; by eexists|]. vm_compute. by eexists.
  - apply Forall_cons; split; [|apply Forall_cons; split; [|by apply Forall_nil]];
      (split; [vm_compute; by eexists|]);
      (split; each_column; vm_compute; by eauto).
  - apply NoDup_singleton.
Defined.

Lemma combine_geo_results_relabelled :
  combine_geo_results example_coded relabelled_original = Ok [relabelled_reconciled].
Proof. vm_cast_no_check (eq_refl (Ok [relabelled_reconciled])). Qed.

(** C10 as stated fails: with unique case numbers in both frames, an
    original frame that already has a column named recovered gets that
    column overwritten, and gains six columns, not seven. *)
Lemma combine_geo_results_overwrites_recovered :
  NoDup ((.!! "casenumber") <$> example_coded)
  ∧ NoDup ((.!! "casenumber") <$> relabelled_original)
  ∧ ∃ l : Series,
      relabelled_original = [l]
      ∧ combine_geo_results example_coded relabelled_original
        = Ok [relabelled_reconciled]
      ∧ l !! "recovered" = Some (Str "pending")
      ∧ relabelled_reconciled !! "recovered" = Some (Int 1)
      ∧ size (dom relabelled_reconciled) = (size (dom l) + 6)%nat.
Proof.
  split; [apply NoDup_singleton|]. split; [apply NoDup_singleton|].
  eexists. split; [reflexivity|]. split; [exact combine_geo_results_relabelled|].
  split; [by vm_compute|]. split; by vm_compute.
Qed.

(** ** The geocoding loop *)

Section GeocodingFacts.
Context {W : Type}.
Variable geocode : string → extent → string → W → list candidate * W.

Lemma run_geocoding_loop_app addresses results (σ : session W) :
  run_geocoding_loop geocode addresses results σ
  = (results ++ (run_geocoding_loop geocode addresses [] σ).1,
     (run_geocoding_loop geocode addresses [] σ).2).
Proof.
  revert results σ. induction addresses as [|address rest IH]; intros results σ.
  - cbn. by rewrite app_nil_r.
  - cbn [run_geocoding_loop]. destruct (geocode_address geocode address σ) as [geo σ'].
    rewrite (IH (results ++ [geo])), (IH ([] ++ [geo])). cbn [fst snd].
    by rewrite <- app_assoc.
Qed.

Lemma run_geocoding_cons address rest (σ : session W) :
  run_geocoding geocode (address :: rest) σ
  = ((geocode_address geocode address σ).1
       :: (run_geocoding geocode rest (geocode_address geocode address σ).2).1,
     (run_geocoding geocode rest (geocode_address geocode address σ).2).2).
Proof.
  unfold run_geocoding. cbn [run_geocoding_loop].
  destruct (geocode_address geocode address σ) as [geo σ'].
  by rewrite run_geocoding_loop_app.
Qed.

Lemma geocode_address_skipped address (σ : session W) :
  skipped address = true →
  geocode_address geocode address σ = (no_result address, σ).
Proof.
  destruct address as [a|]; cbn [skipped geocode_address]; [|done]. by intros ->.
Qed.

(** What the loop sends to the provider for one address. *)
Lemma geocode_address_queries address (σ : session W) :
  queries (geocode_address geocode address σ).2
  = queries σ ++ (if skipped address then [] else option_list address).
Proof.
  destruct address as [a|]; cbn [skipped geocode_address option_list].
  - destruct (contains "unknown" a); [by rewrite app_nil_r|].
    destruct (geocode a search_bounds "rooftop" (provider σ)) as [[|best rest] w]; done.
  - by rewrite app_nil_r.
Qed.
End GeocodingFacts.

(** C6 (amended). An address that is null or contains "unknown" is not sent
    to the provider (the session, query log included, is left as it was)
    and gets a result whose latitude, longitude and score are null and
    whose address entry is the input address itself, hence null only for a
    null input; an address the provider has no candidate for gets the same
    result after the one query.  Over a whole run there is one result per
    address, in order, and the queries sent are exactly the addresses that
    are not skipped. *)
Theorem run_geocoding_skips {W : Type}
  (geocode : string → extent → string → W → list candidate * W) :
  (∀ address (σ : session W),
      skipped address = true →
      geocode_address geocode address σ
      = ({| geo_address := address_cell address; geo_latitude := NA;
            geo_longitude := NA; geo_score := NA |}, σ))
  ∧ (∀ a (σ : session W),
        skipped (Some a) = false →
        (geocode a search_bounds "rooftop" (provider σ)).1 = [] →
        (geocode_address geocode (Some a) σ).1
        = {| geo_address := Str a; geo_latitude := NA;
             geo_longitude := NA; geo_score := NA |}
        ∧ queries (geocode_address geocode (Some a) σ).2 = queries σ ++ [a])
  ∧ (∀ addresses (σ : session W),
        length (run_geocoding geocode addresses σ).1 = length addresses
        ∧ (∀ i address,
              addresses !! i = Some address → skipped address = true →
              (run_geocoding geocode addresses σ).1 !! i
              = Some {| geo_address := address_cell address; geo_latitude := NA;
                        geo_longitude := NA; geo_score := NA |})
        ∧ queries (run_geocoding geocode addresses σ).2
          = queries σ
              ++ omap (fun address => if skipped address then None else address)
                      addresses).
Proof.
  split; [|split].
  - intros address σ H. by rewrite geocode_address_skipped.
  - intros a σ Hskip Hnone. cbn [skipped] in Hskip. cbn [geocode_address].
    rewrite Hskip.
    destruct (geocode a search_bounds "rooftop" (provider σ)) as [info w].
    cbn [fst] in Hnone. by subst info.
  - intros addresses. induction addresses as [|address rest IH]; intros σ.
    + cbn. split; [done|]. split; [done|]. by rewrite app_nil_r.
    + rewrite run_geocoding_cons. cbn [fst snd length].
      destruct (IH (geocode_address geocode address σ).2) as (Hlen & Hskip & Hq).
      split; [by rewrite Hlen|]. split.
      * intros [|i] address' Hi Hs.
        -- injection Hi as ->. by rewrite geocode_address_skipped.
        -- by apply Hskip.
      * rewrite Hq, geocode_address_queries, <- app_assoc. f_equal.
        cbn [omap list_omap]. destruct address as [a|]; cbn [skipped option_list].
        -- by destruct (contains "unknown" a).
        -- done.
Qed.

Lemma run_geocoding_skips_witness :
  (run_geocoding no_match_provider sample_addresses
     {| provider := tt; queries := [] |}).1 !! 1%nat
  = Some {| geo_address := Str "unknown COLUMBIA 65201"; geo_latitude := NA;
            geo_longitude := NA; geo_score := NA |}.
Proof.
  apply (proj1 (proj2 (proj2 (proj2 (run_geocoding_skips no_match_provider))
                         sample_addresses {| provider := tt; queries := [] |}))
           1%nat (Some "unknown COLUMBIA 65201"));
    reflexivity.
Defined.

(** C6 as stated fails: the result of a skipped address, and of one without
    candidates, carries the input address and is not the all-null tuple. *)
Lemma run_geocoding_not_all_null :
  run_geocoding no_match_provider sample_addresses {| provider := tt; queries := [] |}
  = ([ {| geo_address := NA; geo_latitude := NA; geo_longitude := NA;
          geo_score := NA |};
       {| geo_address := Str "unknown COLUMBIA 65201"; geo_latitude := NA;
          geo_longitude := NA; geo_score := NA |};
       {| geo_address := Str "1 MAIN ST COLUMBIA 65201"; geo_latitude := NA;
          geo_longitude := NA; geo_score := NA |} ],
     {| provider := tt; queries := ["1 MAIN ST COLUMBIA 65201"] |})
  ∧ skipped (Some "unknown COLUMBIA 65201") = true
  ∧ (run_geocoding no_match_provider sample_addresses
       {| provider := tt; queries := [] |}).1 !! 1%nat
    ≠ Some {| geo_address := NA; geo_latitude := NA; geo_longitude := NA;
              geo_score := NA |}.
Proof. split; [reflexivity|]. split; [reflexivity|discriminate]. Qed.

(** ** More on the address cleaning *)

Lemma re_sub_from_sublist r n s :
  list_ascii_of_string (re_sub_from r n s) `sublist_of` list_ascii_of_string s.
Proof.
  revert n. induction s as [|c s IH]; intros n; cbn [re_sub_from list_ascii_of_string].
  - constructor.
  - destruct n as [|n]; [|by apply sublist_cons].
    destruct (match_length r (String c s)) as [|k]; [|by apply sublist_cons].
    cbn [list_ascii_of_string]. by apply sublist_skip.
Qed.

(** X1. [remove_apartment_info] only deletes characters: its result is a
    subsequence of its argument, and what is left consists of letters,
    digits, full stops and whitespace. *)
Theorem remove_apartment_info_only_deletes x :
  list_ascii_of_string (remove_apartment_info x) `sublist_of` list_ascii_of_string x
  ∧ sforall street_char (remove_apartment_info x) = true.
Proof.
  split; [|apply remove_apartment_info_street_chars].
  unfold remove_apartment_info, re_sub_empty.
  etransitivity; apply re_sub_from_sublist.
Qed.

Lemma app_cons c (p s : string) : String c p +:+ s = String c (p +:+ s).
Proof. reflexivity. Qed.

Lemma string_length_app (p s : string) :
  String.length (p +:+ s) = (String.length p + String.length s)%nat.
Proof.
  induction p as [|c p IH]; [done|].
  rewrite app_cons. cbn [String.length Nat.add]. by rewrite IH.
Qed.

Lemma re_sub_from_skip r (p s : string) :
  re_sub_from r (String.length p) (p +:+ s) = re_sub_from r 0 s.
Proof.
  induction p as [|c p IH]; [done|]. rewrite app_cons.
  cbn [String.length re_sub_from]. exact IH.
Qed.

Lemma star_all cls (s : string) :
  sforall cls s = true → star cls s Some = Some EmptyString.
Proof.
  induction s as [|c s IH]; [done|]. cbn [sforall star].
  intros [-> Hs]%andb_true_iff. by rewrite (IH Hs).
Qed.

(** A star whose continuation fails on every suffix fails. *)
Lemma star_no_success cls (s : string) k :
  (∀ p y, s = p +:+ y → k y = None) → star cls s k = None.
Proof.
  induction s as [|c s IH]; intros H.
  - cbn. by apply (H EmptyString).
  - cbn [star]. rewrite (H EmptyString (String c s) eq_refl).
    rewrite IH; [by destruct (cls c)|].
    intros p y ->. by apply (H (String c p)).
Qed.

Lemma nh_comma_fail y k :
  startswith "nh," y = false →
  rmatch (Cat (chr "n") (Cat (chr "h") (chr ","))) y k = None.
Proof.
  destruct y as [|c1 [|c2 [|c3 y]]]; cbn [rmatch chr startswith];
    repeat match goal with
           | |- context [Ascii.eqb ?a ?b] => destruct (Ascii.eqb a b)
           end; done.
Qed.

Lemma contains_suffix w (p y : string) :
  contains w (p +:+ y) = false → startswith w y = false.
Proof.
  induction p as [|c p IH].
  - change (EmptyString +:+ y) with y.
    destruct y; cbn [contains]; by intros [? _]%orb_false_iff.
  - rewrite app_cons. cbn [contains]. intros [_ H]%orb_false_iff. by apply IH.
Qed.

(** No alternative of the first pattern matches at the start of [y]. *)
Lemma apartment_re_no_match_at y :
  startswith "apt" y = false → startswith "#" y = false →
  contains "nh," y = false →
  match_length apartment_re y = 0.
Proof.
  intros Hapt Hhash Hnh. unfold match_length, re_match, apartment_re.
  rewrite !rmatch_alt, (apt_alternative_none _ _ Hapt).
  assert (rmatch (Cat (chr "#") (Star dot)) y Some = None) as ->.
  { destruct y as [|c y]; [done|]. cbn [rmatch chr startswith] in *.
    by rewrite andb_true_r in Hhash; rewrite Hhash. }
  rewrite rmatch_cat, rmatch_star, star_no_success; [done|].
  intros p z ->. apply nh_comma_fail. by eapply contains_suffix.
Qed.

Lemma street_chars_no_nh t :
  sforall street_char t = true → contains "nh," t = false.
Proof.
  induction t as [|c t IH]; [done|].
  intros [_ Ht]%andb_true_iff. cbn [contains]. rewrite (IH Ht), orb_false_r.
  destruct t as [|c2 [|c3 t]]; cbn [startswith]; rewrite ?andb_false_r; [done..|].
  destruct (Ascii.eqb_spec "," c3) as [<-|]; [|by rewrite !andb_false_r].
  cbn [sforall] in Ht. by apply andb_true_iff in Ht as [_ [Ht _]%andb_true_iff].
Qed.

Lemma string_app_assoc (p q s : string) : (p +:+ q) +:+ s = p +:+ q +:+ s.
Proof. induction p as [|c p IH]; [done|]. by rewrite !app_cons, IH. Qed.

Lemma string_app_empty_r (p : string) : p +:+ EmptyString = p.
Proof. induction p as [|c p IH]; [done|]. by rewrite app_cons, IH. Qed.

(** A match at the start of the text is dropped and the scan resumes
    behind it. *)
Lemma re_sub_from_match r (c : ascii) (q rest : string) :
  match_length r (String c q +:+ rest) = S (String.length q) →
  re_sub_from r 0 (String c q +:+ rest) = re_sub_from r 0 rest.
Proof.
  intros H. rewrite app_cons in *. cbn [re_sub_from]. rewrite H.
  apply re_sub_from_skip.
Qed.

(** Where nothing matches the scan copies the text. *)
Lemma re_sub_from_copy r (pre s : string) :
  (∀ p y, pre = p +:+ y → y ≠ EmptyString → match_length r (y +:+ s) = 0) →
  re_sub_from r 0 (pre +:+ s) = pre +:+ re_sub_from r 0 s.
Proof.
  induction pre as [|c pre IH]; intros H; [done|].
  rewrite !app_cons. cbn [re_sub_from].
  rewrite <- app_cons, (H EmptyString (String c pre)) by done.
  rewrite IH; [done|]. intros p y -> Hy. by apply (H (String c p)).
Qed.

Lemma startswith_apt_app (p : string) d tail :
  startswith "apt" p = false → d ≠ "a"%char → d ≠ "p"%char → d ≠ "t"%char →
  startswith "apt" (p +:+ String d tail) = false.
Proof.
  intros H Ha Hp Ht.
  apply Ascii.eqb_neq in Ha, Hp, Ht. rewrite Ascii.eqb_sym in Ha, Hp, Ht.
  destruct p as [|c1 [|c2 [|c3 p]]]; rewrite ?app_cons;
    change (EmptyString +:+ String d tail) with (String d tail);
    cbn [startswith] in *; rewrite ?Ha, ?Hp, ?Ht, ?andb_false_r; done.
Qed.

Lemma startswith_hash_app (p : string) d tail :
  startswith "#" p = false → d ≠ "#"%char →
  startswith "#" (p +:+ String d tail) = false.
Proof.
  intros H Hd. apply Ascii.eqb_neq in Hd. rewrite Ascii.eqb_sym in Hd.
  destruct p as [|c p]; [|by rewrite app_cons].
  change (startswith "#" (String d tail) = false). cbn [startswith]. by rewrite Hd.
Qed.

Lemma street_char_not_hash c (s : string) :
  street_char c = true → startswith "#" (String c s) = false.
Proof.
  intros Hc. cbn [startswith]. rewrite andb_true_r.
  destruct (Ascii.eqb_spec "#" c) as [<-|]; done.
Qed.

(** A comma-free text in front of a hash adds no "nh,". *)
Lemma contains_nh_hash (pre rest : string) :
  sforall street_char pre = true → contains "nh," rest = false →
  contains "nh," (pre +:+ String "#" rest) = false.
Proof.
  intros Hpre Hrest. induction pre as [|c pre IH].
  - change (contains "nh," (String "#" rest) = false). cbn [contains].
    by rewrite Hrest.
  - cbn [sforall] in Hpre. apply andb_true_iff in Hpre as [_ Hpre].
    rewrite app_cons. cbn [contains]. rewrite (IH Hpre), orb_false_r.
    destruct pre as [|c2 [|c3 pre]]; rewrite ?app_cons;
      change (EmptyString +:+ String "#" rest) with (String "#" rest);
      cbn [startswith]; rewrite ?andb_false_r; try done.
    destruct (Ascii.eqb_spec "," c3) as [<-|]; [|by rewrite !andb_false_r].
    cbn [sforall] in Hpre. by apply andb_true_iff in Hpre as [_ [Hpre _]%andb_true_iff].
Qed.

Lemma contains_apt_suffix (p y : string) :
  contains "apt" (p +:+ y) = false → contains "apt" y = false.
Proof.
  induction p as [|c p IH]; [done|]. rewrite app_cons. cbn [contains].
  intros [_ H]%orb_false_iff. by apply IH.
Qed.

Lemma sforall_app P (p y : string) :
  sforall P (p +:+ y) = sforall P p && sforall P y.
Proof.
  induction p as [|c p IH]; [done|]. rewrite app_cons. cbn [sforall].
  by rewrite IH, andb_assoc.
Qed.

(** X3. A hash and everything after it on the line is removed and the text
    before it is kept, when that text holds only street characters and no
    "apt" and the rest of the line holds no "nh,". *)
Theorem remove_apartment_info_hash (pre rest : string) :
  sforall street_char pre = true → contains "apt" pre = false →
  sforall dot rest = true → contains "nh," rest = false →
  remove_apartment_info (pre +:+ "#" +:+ rest) = pre.
Proof.
  intros Hpre Hapt Hline Hnh. unfold remove_apartment_info, re_sub_empty.
  change (pre +:+ "#" +:+ rest) with (pre +:+ String "#" rest).
  rewrite re_sub_from_copy.
  - rewrite <- (string_app_empty_r (String "#" rest)), re_sub_from_match.
    + change (re_sub_from apartment_re 0 EmptyString) with EmptyString.
      rewrite string_app_empty_r. change (re_sub_from junk_re 0 pre) with
        (re_sub_empty junk_re pre).
      unfold junk_re. rewrite re_sub_empty_class. apply sfilter_id.
      eapply sforall_impl; [|exact Hpre]. intros c. cbv beta. by intros ->.
    + rewrite string_app_empty_r. unfold match_length, re_match, apartment_re.
      rewrite !rmatch_alt, apt_alternative_none by done.
      cbn [rmatch chr]. change (Ascii.eqb "#" "#") with true. cbv iota.
      rewrite (star_all _ _ Hline). cbn [String.length]. lia.
  - intros p y -> Hy. rewrite sforall_app in Hpre.
    apply andb_true_iff in Hpre as [_ Hy'].
    apply contains_apt_suffix in Hapt.
    destruct y as [|c y]; [done|]. apply apartment_re_no_match_at.
    + apply startswith_apt_app; [|done..]. cbn [contains] in Hapt.
      by apply orb_false_iff in Hapt as [? _].
    + rewrite app_cons. apply street_char_not_hash.
      cbn [sforall] in Hy'. by apply andb_true_iff in Hy' as [? _].
    + by apply contains_nh_hash.
Qed.

Lemma remove_apartment_info_hash_witness :
  remove_apartment_info ("12 oak st " +:+ "#" +:+ "4b, rear") = "12 oak st ".
Proof. by apply remove_apartment_info_hash. Defined.

Lemma star_prefix cls (p s : string) k r :
  sforall cls p = true → star cls s k = Some r → star cls (p +:+ s) k = Some r.
Proof.
  intros Hp Hs. induction p as [|c p IH]; [done|].
  cbn [sforall] in Hp. apply andb_true_iff in Hp as [Hc Hp].
  rewrite app_cons. cbn [star]. by rewrite Hc, (IH Hp).
Qed.

(** X4. Everything up to and including the last "nh," of a line is removed:
    when the text before it is on one line and does not start with "apt" or
    a hash, and the text after it holds only street characters and no
    "apt", only the text after it is left. *)
Theorem remove_apartment_info_nh (pre rest : string) :
  sforall dot pre = true →
  startswith "apt" pre = false → startswith "#" pre = false →
  sforall street_char rest = true → contains "apt" rest = false →
  remove_apartment_info (pre +:+ "nh," +:+ rest) = rest.
Proof.
  intros Hline Hapt Hhash Hrest Hapt'. unfold remove_apartment_info, re_sub_empty.
  assert (re_sub_from apartment_re 0 (pre +:+ "nh," +:+ rest) = rest) as ->.
  { rewrite <- string_app_assoc.
    destruct (pre +:+ "nh,") as [|c q] eqn:Hq; [by destruct pre|].
    rewrite re_sub_from_match; [by apply re_sub_apartment_id|].
    rewrite <- Hq, string_app_assoc.
    unfold match_length, re_match, apartment_re.
    rewrite !rmatch_alt, apt_alternative_none
      by (by apply (startswith_apt_app pre "n" ("h," +:+ rest))).
    assert (rmatch (Cat (chr "#") (Star dot)) (pre +:+ "nh," +:+ rest) Some = None)
      as ->.
    { assert (startswith "#" (pre +:+ "nh," +:+ rest) = false) as H
        by (by apply (startswith_hash_app pre "n" ("h," +:+ rest))).
      revert H. destruct (pre +:+ "nh," +:+ rest) as [|d s]; [done|].
      cbn [rmatch chr startswith]. rewrite andb_true_r. by intros ->. }
    rewrite rmatch_cat, rmatch_star.
    rewrite (star_prefix dot pre _ _ rest Hline).
    - pose proof (f_equal String.length Hq) as Hlen.
      rewrite string_length_app in Hlen. cbn [String.length] in Hlen.
      rewrite !string_length_app. cbn [String.length]. lia.
    - change ("nh," +:+ rest) with (String "n" (String "h" (String "," rest))).
      cbn [star]. change (dot "n") with true. cbv iota.
      rewrite star_no_success; [by cbn|].
      intros p z Hz. apply nh_comma_fail. apply (contains_suffix _ p). rewrite <- Hz.
      by apply street_chars_no_nh. }
  unfold junk_re. change (re_sub_from (Chr ?f) 0 rest) with (re_sub_empty (Chr f) rest).
  rewrite re_sub_empty_class. apply sfilter_id.
  eapply sforall_impl; [|exact Hrest]. intros c. cbv beta. by intros ->.
Qed.

Lemma remove_apartment_info_nh_witness :
  remove_apartment_info ("12 oak st, concord " +:+ "nh," +:+ " 03301") = " 03301".
Proof. by apply remove_apartment_info_nh. Defined.

Lemma startswith_apt_inside (p : string) d tail :
  p ≠ EmptyString → startswith "apt" p = false →
  d ≠ "p"%char → d ≠ "t"%char →
  startswith "apt" (p +:+ String d tail) = false.
Proof.
  intros Hne H Hp Ht.
  apply Ascii.eqb_neq in Hp, Ht. rewrite Ascii.eqb_sym in Hp, Ht.
  destruct p as [|c1 [|c2 [|c3 p]]]; [done|..]; rewrite ?app_cons;
    change (EmptyString +:+ String d tail) with (String d tail);
    cbn [startswith] in *; rewrite ?Hp, ?Ht, ?andb_false_r; done.
Qed.

(** A comma-free text in front of a text without "nh," that starts with
    neither an h nor a comma adds no "nh,". *)
Lemma contains_nh_app (pre : string) d tail :
  sforall street_char pre = true →
  d ≠ ","%char → d ≠ "h"%char → contains "nh," (String d tail) = false →
  contains "nh," (pre +:+ String d tail) = false.
Proof.
  intros Hpre Hc Hh Htail.
  apply Ascii.eqb_neq in Hc, Hh. rewrite Ascii.eqb_sym in Hc, Hh.
  induction pre as [|c pre IH]; [done|].
  cbn [sforall] in Hpre. apply andb_true_iff in Hpre as [_ Hpre].
  rewrite app_cons. cbn [contains]. rewrite (IH Hpre), orb_false_r.
  destruct pre as [|c2 [|c3 pre]]; rewrite ?app_cons;
    change (EmptyString +:+ String d tail) with (String d tail);
    cbn [startswith]; rewrite ?Hc, ?Hh, ?andb_false_r; try done.
  destruct (Ascii.eqb_spec "," c3) as [<-|]; [|by rewrite !andb_false_r].
  cbn [sforall] in Hpre. by apply andb_true_iff in Hpre as [_ [Hpre _]%andb_true_iff].
Qed.

(** X2. The first "apt" and everything after it on the line is removed and
    the text before it is kept, when that text holds only street characters
    and the rest of the line holds no "nh,". *)
Theorem remove_apartment_info_apt (pre rest : string) :
  sforall street_char pre = true → contains "apt" pre = false →
  sforall dot rest = true → contains "nh," rest = false →
  remove_apartment_info (pre +:+ "apt" +:+ rest) = pre.
Proof.
  intros Hpre Hapt Hline Hnh. unfold remove_apartment_info, re_sub_empty.
  change (pre +:+ "apt" +:+ rest) with (pre +:+ String "a" ("pt" +:+ rest)).
  rewrite re_sub_from_copy.
  - rewrite <- (string_app_empty_r (String "a" ("pt" +:+ rest))), re_sub_from_match.
    + change (re_sub_from apartment_re 0 EmptyString) with EmptyString.
      rewrite string_app_empty_r. change (re_sub_from junk_re 0 pre) with
        (re_sub_empty junk_re pre).
      unfold junk_re. rewrite re_sub_empty_class. apply sfilter_id.
      eapply sforall_impl; [|exact Hpre]. intros c. cbv beta. by intros ->.
    + rewrite string_app_empty_r. unfold match_length, re_match, apartment_re.
      rewrite rmatch_alt.
      change (rmatch (Cat (chr "a") (Cat (chr "p") (Cat (chr "t") (Star dot))))
                (String "a" ("pt" +:+ rest)) Some) with (star dot rest Some).
      rewrite (star_all _ _ Hline). cbn [String.length]. lia.
  - intros p y -> Hy. rewrite sforall_app in Hpre.
    apply andb_true_iff in Hpre as [_ Hy'].
    apply contains_apt_suffix in Hapt.
    destruct y as [|c y]; [done|]. apply apartment_re_no_match_at.
    + apply startswith_apt_inside; [done| |done..]. cbn [contains] in Hapt.
      by apply orb_false_iff in Hapt as [? _].
    + rewrite app_cons. apply street_char_not_hash.
      cbn [sforall] in Hy'. by apply andb_true_iff in Hy' as [? _].
    + apply contains_nh_app; [done..|].
      change (contains "nh," (String "a" (String "p" (String "t" rest))) = false).
      cbn [contains startswith]. by rewrite Hnh.
Qed.

Lemma remove_apartment_info_apt_witness :
  remove_apartment_info ("123 main st " +:+ "apt" +:+ " #4b") = "123 main st ".
Proof. by apply remove_apartment_info_apt. Defined.

Lemma smap_smap f g (s : string) : smap f (smap g s) = smap (fun c => f (g c)) s.
Proof. induction s as [|c s IH]; [done|]. cbn [smap]. by rewrite IH. Qed.

Lemma smap_ext f g (s : string) : (∀ c, f c = g c) → smap f s = smap g s.
Proof. intros H. induction s as [|c s IH]; [done|]. cbn [smap]. by rewrite H, IH. Qed.

Lemma lower_idem s : lower (lower s) = lower s.
Proof. unfold lower. rewrite smap_smap. apply smap_ext, lower_char_idem. Qed.

Lemma lower_upper s : lower (upper s) = lower s.
Proof.
  unfold lower, upper. rewrite smap_smap. apply smap_ext.
  intros c. each_ascii c; reflexivity.
Qed.

Lemma lstrip_smap f (s : string) :
  (∀ c, isspace (f c) = isspace c) → lstrip (smap f s) = smap f (lstrip s).
Proof.
  intros H. induction s as [|c s IH]; [done|]. cbn [smap lstrip].
  rewrite H. by destruct (isspace c).
Qed.

Lemma rstrip_smap f (s : string) :
  (∀ c, isspace (f c) = isspace c) → rstrip (smap f s) = smap f (rstrip s).
Proof.
  intros H. induction s as [|c s IH]; [done|]. cbn [smap rstrip].
  rewrite IH, H. destruct (rstrip s); cbn [smap]; [by destruct (isspace c)|done].
Qed.

Lemma lower_char_space c : isspace (lower_char c) = isspace c.
Proof. each_ascii c; reflexivity. Qed.

Lemma strip_lower s : strip (lower s) = lower (strip s).
Proof.
  unfold strip, lower.
  by rewrite rstrip_smap, lstrip_smap by apply lower_char_space.
Qed.

(** X5. [clean_address] looks at a street only through its lower-cased,
    trimmed text: lower-casing or trimming the argument first changes
    nothing, and neither does upper-casing an ASCII argument. *)
Theorem clean_address_case_and_blanks s :
  (sforall is_ascii s = true →
   clean_address (Str (upper s)) = clean_address (Str s))
  ∧ clean_address (Str (lower s)) = clean_address (Str s)
  ∧ clean_address (Str (strip s)) = clean_address (Str s).
Proof.
  rewrite !clean_address_str. cbv zeta.
  rewrite lower_upper, lower_idem.
  by rewrite (strip_lower (strip s)), strip_idem, <- strip_lower.
Qed.

Lemma clean_address_case_and_blanks_witness :
  clean_address (Str (upper "12 Oak St")) = clean_address (Str "12 Oak St").
Proof. by apply (proj1 (clean_address_case_and_blanks "12 Oak St")). Defined.

Lemma lower_fixed_not_upper c :
  Ascii.eqb (lower_char c) c = true → negb (is_upper c) = true.
Proof. each_ascii c; done. Qed.

Lemma sforall_and P Q (s : string) :
  sforall P s = true → sforall Q s = true →
  sforall (fun c => P c && Q c) s = true.
Proof.
  induction s as [|c s IH]; [done|]. cbn [sforall].
  intros [-> Hp]%andb_true_iff [-> Hq]%andb_true_iff. by rewrite IH.
Qed.

(** X6. A street that [clean_address] returns holds lower-case letters,
    digits, full stops and whitespace only: no capital, no hash, no comma;
    and a null street is cleaned to [None], never to a str. *)
Theorem clean_address_alphabet (street : cell) t :
  clean_address street = Ok (Some t) →
  (∃ s, street = Str s)
  ∧ sforall (fun c => street_char c && negb (is_upper c)) t = true.
Proof.
  destruct street as [|n|r|s]; try done. rewrite clean_address_str. cbv zeta.
  destruct (_ || _); [done|]. intros [= <-]. split; [by eauto|].
  apply sforall_and; [apply remove_apartment_info_street_chars|].
  eapply sforall_impl; [apply lower_fixed_not_upper|].
  apply remove_apartment_info_keeps, sforall_strip, sforall_smap.
  intros c. rewrite lower_char_idem. apply Ascii.eqb_refl.
Qed.

Lemma clean_address_alphabet_witness :
  (∃ s, Str "12 Oak St, Apt 4" = Str s)
  ∧ sforall (fun c => street_char c && negb (is_upper c)) "12 oak st " = true.
Proof. by apply (clean_address_alphabet (Str "12 Oak St, Apt 4")). Defined.

(** ** More on the address builder *)

(** X7. The substitution flag is set exactly when the incident city is null
    and the residence city is a str, and the city is then the title-cased,
    trimmed residence city; in every case the city has no blank at either
    end. *)
Theorem city_sub_flag (row : Series) city subbed :
  city_sub row = Ok (city, subbed) →
  (subbed = true ↔
     row !! "incident_city" = Some NA
     ∧ ∃ c, row !! "residence_city" = Some (Str c) ∧ city = strip (title c))
  ∧ strip city = city.
Proof.
  unfold city_sub, getitem.
  destruct (row !! "incident_city") as [[|n|r|c]|]; cbn; try done.
  - destruct (row !! "residence_city") as [[|n|r|c]|]; cbn; try done.
    + intros [= <- <-]. split; [|done]. split; [done|]. by intros (_ & c & [=] & _).
    + intros [= <- <-]. split; [|apply strip_idem]. split; [by eauto|done].
  - intros [= <- <-]. split; [|apply strip_idem]. split; [done|]. by intros [[=] _].
Qed.

Lemma city_sub_flag_witness :
  (true = true ↔
     example_record !! "incident_city" = Some NA
     ∧ ∃ c, example_record !! "residence_city" = Some (Str c)
            ∧ "Columbia" = strip (title c))
  ∧ strip "Columbia" = "Columbia".
Proof. by apply (city_sub_flag example_record "Columbia" true). Defined.

Lemma create_address_death_inv (row : Series) address subbed :
  create_address row "death" = Ok (address, subbed) →
  subbed = false
  ∧ ∃ street c state zip_code,
      street_of row "death_street" = Ok street
      ∧ row !! "death_city" = Some (Str c)
      ∧ zip_of row "death_zip" = Ok zip_code
      ∧ address = strip (upper (street +:+ " " +:+ strip (title c) +:+ " "
                                  +:+ state +:+ " " +:+ zip_code)).
Proof.
  unfold create_address.
  change (String.eqb "death" "incident") with false.
  change (String.eqb "death" "death") with true. cbv iota.
  destruct (street_of row "death_street") as [street|] eqn:Hstreet;
    cbn [mbind res_bind]; [|done].
  destruct (getitem row "death_city") as [[|n|r|c]|] eqn:Hcity;
    cbn [mbind res_bind str_method]; try done.
  destruct (getitem row "death_state") as [ds|]; cbn [mbind res_bind]; [|done].
  destruct (if notna ds then _ else _) as [state|]; cbn [mbind res_bind]; [|done].
  destruct (zip_of row "death_zip") as [zip_code|] eqn:Hzip;
    cbn [mbind res_bind]; [|done].
  intros [= <- <-]. split; [done|]. exists street, c, state, zip_code.
  split; [done|]. split; [|done].
  unfold getitem in Hcity. destruct (row !! "death_city"); by simplify_eq.
Qed.

Lemma upper_char_not_lower c : negb (is_lower (upper_char c)) = true.
Proof. each_ascii c; reflexivity. Qed.

(** X8. Whatever the context and the record, an address that
    [create_address] returns holds none of the letters a to z and has no
    blank at either end. *)
Theorem create_address_upper_trimmed (row : Series) flag address subbed :
  create_address row flag = Ok (address, subbed) →
  sforall (fun c => negb (is_lower c)) address = true ∧ strip address = address.
Proof.
  intros H.
  assert (∃ text, address = strip (upper text)) as [text ->].
  { destruct (String.eqb_spec flag "incident") as [->|Hi].
    - apply create_address_incident_inv in H as (? & ? & ? & _ & _ & _ & ->). by eauto.
    - destruct (String.eqb_spec flag "death") as [->|Hd].
      + apply create_address_death_inv in H as (_ & ? & ? & ? & ? & _ & _ & _ & ->).
        by eauto.
      + apply String.eqb_neq in Hi, Hd. unfold create_address in H.
        by rewrite Hi, Hd in H. }
  split; [|apply strip_idem].
  apply sforall_strip, sforall_smap, upper_char_not_lower.
Qed.

Lemma create_address_upper_trimmed_witness :
  sforall (fun c => negb (is_lower c)) "123 MAIN ST  COLUMBIA 65201" = true
  ∧ strip "123 MAIN ST  COLUMBIA 65201" = "123 MAIN ST  COLUMBIA 65201".
Proof.
  apply (create_address_upper_trimmed example_record "incident" _ true).
  by vm_compute.
Defined.

(** X9. In the death context [create_address] never reports a substitution
    and succeeds only on a record whose death city is a str; it does succeed
    when the city is a str and street and state are strs or missing and the
    zip is present. *)
Theorem create_address_death_city (row : Series) :
  (∀ address subbed,
      create_address row "death" = Ok (address, subbed) →
      subbed = false ∧ ∃ c, row !! "death_city" = Some (Str c))
  ∧ ((∃ c, row !! "death_city" = Some (Str c)) →
     (∀ key, key ∈ ["death_street"; "death_state"] →
             row !! key = Some NA ∨ ∃ s, row !! key = Some (Str s)) →
     is_Some (row !! "death_zip") →
     ∃ address, create_address row "death" = Ok (address, false)).
Proof.
  split.
  - intros address subbed (-> & ? & c & ? & ? & _ & Hc & _)%create_address_death_inv.
    by eauto.
  - intros [c Hc] Htext Hzip. unfold create_address.
    change (String.eqb "death" "incident") with false.
    change (String.eqb "death" "death") with true. cbv iota.
    destruct (street_of_text row "death_street") as [street ->]; [apply Htext; in_list|].
    cbn [mbind res_bind]. rewrite (getitem_Some _ _ _ Hc). cbn [mbind res_bind str_method].
    destruct (zip_of_present row "death_zip" Hzip) as [zip_code Hz].
    destruct (Htext "death_state") as [Hs|[s Hs]]; [in_list|..];
      rewrite (getitem_Some _ _ _ Hs); cbn [mbind res_bind notna isna negb str_method];
      rewrite Hz; cbn [mbind res_bind]; by eauto.
Qed.

Lemma create_address_death_city_witness :
  ∃ address,
    create_address (<["death_city" := Str "columbia"]> death_record_without_city)
                   "death" = Ok (address, false).
Proof.
  apply (proj2 (create_address_death_city
                  (<["death_city" := Str "columbia"]> death_record_without_city))).
  - by exists "columbia".
  - each_column; vm_compute; by eauto.
  - vm_compute. by eexists.
Defined.

(** X10. A record whose incident street, both cities and incident zip are
    all missing gets the empty address, with no substitution. *)
Theorem create_address_all_missing (row : Series) :
  (∀ key, key ∈ ["incident_street"; "incident_city"; "residence_city"; "incident_zip"] →
          row !! key = Some NA) →
  create_address row "incident" = Ok (EmptyString, false).
Proof.
  intros H. unfold create_address, street_of, city_sub, zip_of.
  change (String.eqb "incident" "incident") with true. cbv iota.
  rewrite (getitem_Some row "incident_street" NA) by (apply H; in_list).
  rewrite (getitem_Some row "incident_city" NA) by (apply H; in_list).
  rewrite (getitem_Some row "residence_city" NA) by (apply H; in_list).
  by rewrite (getitem_Some row "incident_zip" NA) by (apply H; in_list).
Qed.

Lemma create_address_all_missing_witness :
  create_address
    (list_to_map [("incident_street", NA); ("incident_city", NA);
                  ("residence_city", NA); ("incident_zip", NA)])
    "incident" = Ok (EmptyString, false).
Proof. apply create_address_all_missing. each_column; by vm_compute. Defined.

(** ** More on the reconciler *)

(** X11. [composite_lat_long] fails on a known axis only for a missing
    column: the raw one, or the geocoded one when the raw cell is null.  A
    present raw coordinate is returned without the geocoded column being
    read. *)
Theorem composite_lat_long_failure (row : Series) e :
  (composite_lat_long row "lat" = Raise e ↔
     (row !! "latitude" = None ∧ e = KeyError "latitude")
     ∨ (row !! "latitude" = Some NA ∧ row !! "geocoded_latitude" = None
        ∧ e = KeyError "geocoded_latitude"))
  ∧ (composite_lat_long row "long" = Raise e ↔
       (row !! "longitude" = None ∧ e = KeyError "longitude")
       ∨ (row !! "longitude" = Some NA ∧ row !! "geocoded_longitude" = None
          ∧ e = KeyError "geocoded_longitude")).
Proof.
  unfold composite_lat_long, getitem.
  change (String.eqb "lat" "lat") with true.
  change (String.eqb "long" "lat") with false.
  change (String.eqb "long" "long") with true. cbv iota. split.
  - destruct (row !! "latitude") as [[|n|r|s]|]; cbn;
      [destruct (row !! "geocoded_latitude") as [[|n|r|s]|]; cbn|..];
      naive_solver.
  - destruct (row !! "longitude") as [[|n|r|s]|]; cbn;
      [destruct (row !! "geocoded_longitude") as [[|n|r|s]|]; cbn|..];
      naive_solver.
Qed.

Lemma composite_lat_long_failure_witness :
  composite_lat_long (list_to_map [("latitude", NA)]) "lat"
  = Raise (KeyError "geocoded_latitude").
Proof.
  apply (proj1 (composite_lat_long_failure (list_to_map [("latitude", NA)]) _)).
  right. by vm_compute.
Defined.

(** X12. In the reconciled frame a final coordinate is null exactly when
    both the raw and the geocoded coordinate of that axis are null. *)
Theorem final_coordinate_missing (coded_df original_df df : DataFrame) (row : Series) :
  combine_geo_results coded_df original_df = Ok df → row ∈ df →
  (row !! "final_latitude" = Some NA ↔
     row !! "latitude" = Some NA ∧ row !! "geocoded_latitude" = Some NA)
  ∧ (row !! "final_longitude" = Some NA ↔
       row !! "longitude" = Some NA ∧ row !! "geocoded_longitude" = Some NA).
Proof.
  intros Hdf Hrow.
  destruct (combine_geo_results_row _ _ _ _ Hdf Hrow) as [d Hd].
  apply enrich_row_inv in Hd as (s & la & lo & Hs & Hla & Hlo & ->).
  apply composite_lat_inv in Hla as (lat & Hlat & Hla).
  apply composite_long_inv in Hlo as (long & Hlong & Hlo).
  simplify_map_eq. split.
  - destruct lat; cbn in Hla; subst; try (split; [done|by intros [[=] _]]).
    destruct Hla as (g & -> & ->). destruct g; cbn; split; naive_solver.
  - destruct long; cbn in Hlo; subst; try (split; [done|by intros [[=] _]]).
    destruct Hlo as (g & -> & ->). destruct g; cbn; split; naive_solver.
Qed.

Lemma final_coordinate_missing_witness :
  (unscored_reconciled !! "final_latitude" = Some NA ↔
     unscored_reconciled !! "latitude" = Some NA
     ∧ unscored_reconciled !! "geocoded_latitude" = Some NA)
  ∧ (unscored_reconciled !! "final_longitude" = Some NA ↔
       unscored_reconciled !! "longitude" = Some NA
       ∧ unscored_reconciled !! "geocoded_longitude" = Some NA).
Proof.
  apply (final_coordinate_missing unscored_coded unscored_original
           [unscored_reconciled] unscored_reconciled).
  - exact combine_geo_results_unscored.
  - apply list_elem_of_here.
Defined.

(** *** Rows of the join *)

Lemma select_row_inv (columns : list string) (row : Series) kvs :
  res_mapM (fun c => v ← getitem row c; Ok (c, v)) columns = Ok kvs →
  ∀ c, c ∈ columns → (list_to_map kvs : Series) !! c = row !! c ∧ is_Some (row !! c).
Proof.
  revert kvs. induction columns as [|c0 cs IH]; intros kvs H c Hc.
  - by apply elem_of_nil in Hc.
  - apply res_mapM_cons in H as ([c0' v0] & kvs' & H0 & Hk & ->).
    unfold getitem in H0. destruct (row !! c0) as [v|] eqn:Hv; [|done].
    cbn in H0. injection H0 as <- <-. rewrite list_to_map_cons.
    destruct (decide (c0 = c)) as [<-|Hne].
    + rewrite lookup_insert_eq, Hv. by eauto.
    + rewrite lookup_insert_ne by done. apply (IH _ Hk).
      apply elem_of_cons in Hc as [?|?]; [congruence|done].
Qed.

Lemma select_columns_inv (columns : list string) (coded right : DataFrame) :
  select_columns columns coded = Ok right →
  Forall2 (fun r r' : Series =>
             ∀ c, c ∈ columns → r' !! c = r !! c ∧ is_Some (r !! c)) coded right.
Proof.
  unfold select_columns. intros H%res_mapM_Forall2.
  eapply Forall2_impl; [exact H|]. intros r r' Hr. cbv beta in Hr.
  destruct (res_mapM _ columns) as [kvs|] eqn:Hk; [|done].
  injection Hr as <-. by apply select_row_inv.
Qed.






Lemma merge_left_unique_match (left right : DataFrame) (on : string) columns :
  Forall (fun l : Series => is_Some (l !! on)) left →
  NoDup ((.!! on) <$> right) →
  ∃ df0, merge_left left right on columns = Ok df0
         ∧ Forall2 (fun l d : Series =>
                      ∃ r, d = join_row on columns l r
                           ∧ filter (fun r' : Series => r' !! on = l !! on) right
                             = option_list r) left df0.
Proof.
  intros Hleft Hnd. unfold merge_left.
  enough (∃ df0,
            res_mapM (fun l : Series =>
                key ← getitem l on;
                match filter (fun r : Series => r !! on = Some key) right with
                | [] => Ok [join_row on columns l None]
                | matches =>
                    Ok (map (fun r => join_row on columns l (Some r)) matches)
                end) left = Ok ((fun d => [d]) <$> df0)
            ∧ Forall2 (fun l d : Series =>
                         ∃ r, d = join_row on columns l r
                              ∧ filter (fun r' : Series => r' !! on = l !! on) right
                                = option_list r) left df0)
    as (df0 & -> & H).
  { exists df0. split; [|done]. cbn [mbind res_bind]. f_equal.
    clear. induction df0 as [|d ds IH]; [done|]. cbn. by rewrite IH. }
  induction Hleft as [|l ls [key Hkey] _ (df0 & Hdf0 & Hall)].
  - by exists [].
  - pose proof (filter_key_unique on right key Hnd) as Hlen.
    destruct (filter (fun r : Series => r !! on = Some key) right)
      as [|r [|r' rs]] eqn:Hf.
    + exists (join_row on columns l None :: df0). split.
      * apply res_mapM_cons. eexists _, _. split; [|split; [exact Hdf0|]].
        -- cbv beta. rewrite (getitem_Some _ _ _ Hkey). cbn [mbind res_bind].
           rewrite Hf. reflexivity.
        -- reflexivity.
      * constructor; [|done]. exists None. by rewrite Hkey, Hf.
    + exists (join_row on columns l (Some r) :: df0). split.
      * apply res_mapM_cons. eexists _, _. split; [|split; [exact Hdf0|]].
        -- cbv beta. rewrite (getitem_Some _ _ _ Hkey). cbn [mbind res_bind].
           rewrite Hf. reflexivity.
        -- reflexivity.
      * constructor; [|done]. exists (Some r). by rewrite Hkey, Hf.
    + cbn in Hlen. lia.
Qed.

Lemma join_row_disjoint_values (l : Series) (r : option Series) :
  (∀ c, c ∈ added_columns → l !! c = None) →
  join_row "casenumber" geocoded_columns l r
  = <["geocoded_latitude" := default NA (r ≫= (.!! "geocoded_latitude"))]>
      (<["geocoded_longitude" := default NA (r ≫= (.!! "geocoded_longitude"))]>
         (<["geocoded_score" := default NA (r ≫= (.!! "geocoded_score"))]>
            (<["geocoded_address" := default NA (r ≫= (.!! "geocoded_address"))]> l))).
Proof.
  intros H.
  assert (l !! "geocoded_latitude" = None) as H1 by (apply H; in_list).
  assert (l !! "geocoded_longitude" = None) as H2 by (apply H; in_list).
  assert (l !! "geocoded_score" = None) as H3 by (apply H; in_list).
  assert (l !! "geocoded_address" = None) as H4 by (apply H; in_list).
  unfold join_row, suffix_left, geocoded_columns. cbn [foldr].
  rewrite H1, H2, H3, H4, clashes_key, !clashes_absent by done.
  by destruct (l !! "casenumber").
Qed.

Lemma enrich_row_joined_values (l : Series) glat glong gscore gaddr lat long :
  l !! "latitude" = Some lat → l !! "longitude" = Some long →
  enrich_row (<["geocoded_latitude" := glat]>
                (<["geocoded_longitude" := glong]>
                   (<["geocoded_score" := gscore]>
                      (<["geocoded_address" := gaddr]> l))))
  = Ok (<["final_longitude" :=
            if notna long then long else if notna glong then glong else NA]>
          (<["final_latitude" :=
               if notna lat then lat else if notna glat then glat else NA]>
             (<["recovered" := if notna gscore then Int 1 else Int 0]>
                (<["geocoded_latitude" := glat]>
                   (<["geocoded_longitude" := glong]>
                      (<["geocoded_score" := gscore]>
                         (<["geocoded_address" := gaddr]> l))))))).
Proof.
  intros Hlat Hlong. unfold enrich_row.
  set (d := <["geocoded_latitude" := glat]> _).
  assert (d !! "geocoded_score" = Some gscore) as -> by (subst d; by simplify_map_eq).
  cbn [mbind res_bind].
  set (d1 := <["recovered" := _]> d).
  assert (composite_lat_long d1 "lat"
          = Ok (if notna lat then lat else if notna glat then glat else NA)) as ->.
  { unfold composite_lat_long.
    change (String.eqb "lat" "lat") with true. cbv iota.
    rewrite (getitem_Some d1 "latitude" lat) by (subst d1 d; by simplify_map_eq).
    cbn [mbind res_bind]. destruct (notna lat); [done|].
    rewrite (getitem_Some d1 "geocoded_latitude" glat)
      by (subst d1 d; by simplify_map_eq).
    cbn [mbind res_bind]. by destruct (notna glat). }
  cbn [mbind res_bind].
  set (d2 := <["final_latitude" := _]> d1).
  assert (composite_lat_long d2 "long"
          = Ok (if notna long then long else if notna glong then glong else NA)) as ->.
  { unfold composite_lat_long.
    change (String.eqb "long" "lat") with false.
    change (String.eqb "long" "long") with true. cbv iota.
    rewrite (getitem_Some d2 "longitude" long) by (subst d2 d1 d; by simplify_map_eq).
    cbn [mbind res_bind]. destruct (notna long); [done|].
    rewrite (getitem_Some d2 "geocoded_longitude" glong)
      by (subst d2 d1 d; by simplify_map_eq).
    cbn [mbind res_bind]. by destruct (notna glong). }
  done.
Qed.

Lemma first_non_null_na (v : cell) : (if notna v then v else NA) = v.
Proof. by destruct v. Qed.

(** The cells of the join in the model: under the five geocoded labels a
    reconciled row has the cells of the geocoded row with its key, or nulls
    when there is none. *)
Lemma combine_geo_results_join_cells (coded_df original_df : DataFrame) :
  Forall (fun r : Series => ∀ c, c ∈ geocoded_columns → is_Some (r !! c)) coded_df →
  Forall (fun l : Series =>
            (∀ c, c ∈ ["casenumber"; "latitude"; "longitude"] → is_Some (l !! c))
            ∧ (∀ c, c ∈ added_columns → l !! c = None)) original_df →
  NoDup ((.!! "casenumber") <$> coded_df) →
  ∃ df,
    combine_geo_results coded_df original_df = Ok df
    ∧ Forall2 (fun l o : Series =>
                 (∀ r : Series,
                     r ∈ coded_df → r !! "casenumber" = l !! "casenumber" →
                     ∀ c, c ∈ geocoded_columns → o !! c = r !! c)
                 ∧ ((∀ r : Series,
                        r ∈ coded_df → r !! "casenumber" ≠ l !! "casenumber") →
                    (∀ c, c ∈ ["geocoded_latitude"; "geocoded_longitude";
                               "geocoded_score"; "geocoded_address"] →
                          o !! c = Some NA)
                    ∧ o !! "recovered" = Some (Int 0)
                    ∧ o !! "final_latitude" = l !! "latitude"
                    ∧ o !! "final_longitude" = l !! "longitude"))
              original_df df.
Proof.
  intros Hcoded Horig Hnd.
  destruct (select_columns_spec _ _ Hcoded) as (right & Hsel & _).
  pose proof (select_columns_inv _ _ _ Hsel) as Hright.
  destruct (merge_left_unique_match original_df right "casenumber" geocoded_columns)
    as (df0 & Hmerge & Hjoin).
  { eapply Forall_impl; [exact Horig|]. intros l [H _]. apply H. in_list. }
  { rewrite (select_keeps_keys geocoded_columns coded_df right); [done|in_list|].
    eapply Forall2_impl; [exact Hright|]. intros r r' H c Hc. by apply H. }
  set (P := fun l o : Series => _ ∧ _).
  enough (∃ df, Forall2 (fun d o : Series => enrich_row d = Ok o) df0 df
                ∧ Forall2 P original_df df) as (df & Hdf & HP).
  { exists df. split; [|done]. apply combine_geo_results_rows. by eauto. }
  clear Hmerge Hsel Hnd Hcoded. revert Horig.
  induction Hjoin as [|l d ls ds (r' & -> & Hmatch) _ IH]; intros Horig.
  { exists []. split; constructor. }
  apply Forall_cons in Horig as [[Hread Hfresh] Horig].
  destruct (IH Horig) as (df & Hdf & HP).
  destruct (Hread "latitude") as [lat Hlat]; [in_list|].
  destruct (Hread "longitude") as [long Hlong]; [in_list|].
  rewrite (join_row_disjoint_values l r' Hfresh).
  eexists (_ :: df). split.
  { constructor; [|exact Hdf]. by apply enrich_row_joined_values. }
  constructor; [|exact HP]. subst P. cbv beta. split.
  - intros r Hr Hkey c Hc.
    destruct (proj1 (list_elem_of_lookup _ _) Hr) as [i Hi].
    destruct (Forall2_lookup_l _ _ _ _ _ Hright Hi) as (r0 & Hi0 & Hr0).
    assert (r' = Some r0) as ->.
    { assert (r0 ∈ option_list r') as Hin.
      { rewrite <- Hmatch. apply list_elem_of_filter. split.
        - rewrite <- Hkey. apply Hr0. in_list.
        - by eapply list_elem_of_lookup_2. }
      destruct r' as [r1|]; cbn in Hin; [|by apply elem_of_nil in Hin].
      by apply list_elem_of_singleton in Hin as ->. }
    cbn [mbind option_bind].
    unfold geocoded_columns in Hc. repeat (apply elem_of_cons in Hc as [->|Hc]);
      [..|by apply elem_of_nil in Hc].
    + by rewrite !lookup_insert_ne by done.
    + rewrite !lookup_insert_ne, lookup_insert_eq by done.
      destruct (Hr0 "geocoded_latitude") as [-> [v ->]]; [in_list|done].
    + rewrite !lookup_insert_ne, lookup_insert_eq by done.
      destruct (Hr0 "geocoded_longitude") as [-> [v ->]]; [in_list|done].
    + rewrite !lookup_insert_ne, lookup_insert_eq by done.
      destruct (Hr0 "geocoded_score") as [-> [v ->]]; [in_list|done].
    + rewrite !lookup_insert_ne, lookup_insert_eq by done.
      destruct (Hr0 "geocoded_address") as [-> [v ->]]; [in_list|done].
  - intros Hnone.
    assert (r' = None) as ->.
    { destruct r' as [r1|]; [exfalso|done].
      assert (r1 ∈ filter (fun r' : Series => r' !! "casenumber" = l !! "casenumber")
                          right) as [Hk Hin]%list_elem_of_filter
        by (rewrite Hmatch; apply list_elem_of_here).
      destruct (proj1 (list_elem_of_lookup _ _) Hin) as [i Hi].
      destruct (Forall2_lookup_r _ _ _ _ _ Hright Hi) as (r & Hi0 & Hr0).
      apply (Hnone r); [by eapply list_elem_of_lookup_2|].
      rewrite <- Hk. symmetry. apply Hr0. in_list. }
    cbn [mbind option_bind default notna isna negb].
    rewrite !first_non_null_na. split; [|by simplify_map_eq].
    intros c Hc. repeat (apply elem_of_cons in Hc as [->|Hc]);
      [..|by apply elem_of_nil in Hc]; by simplify_map_eq.
Qed.

(** X14. For a non-empty original frame, str case numbers that are unique
    in the geocoded frame, geocoded cells and raw coordinates that are not
    ints, and an original frame with the columns that are read and none of
    the seven that are written: each reconciled row carries, under the five
    geocoded labels, the cells of the geocoded row with its case number; a
    case that was not geocoded gets nulls there, [recovered] 0 and its raw
    coordinates as final ones. *)
Theorem combine_geo_results_join (coded_df original_df : DataFrame) :
  original_df ≠ [] →
  Forall (fun r : Series =>
            (∃ s, r !! "casenumber" = Some (Str s))
            ∧ ∀ c, c ∈ ["geocoded_latitude"; "geocoded_longitude";
                        "geocoded_score"; "geocoded_address"] →
                   ∃ v, r !! c = Some v ∧ is_int v = false) coded_df →
  Forall (fun l : Series =>
            (∃ s, l !! "casenumber" = Some (Str s))
            ∧ (∀ c, c ∈ ["latitude"; "longitude"] →
                    ∃ v, l !! c = Some v ∧ is_int v = false)
            ∧ (∀ c, c ∈ added_columns → l !! c = None)) original_df →
  NoDup ((.!! "casenumber") <$> coded_df) →
  ∃ df,
    combine_geo_results coded_df original_df = Ok df
    ∧ Forall2 (fun l o : Series =>
                 (∀ r : Series,
                     r ∈ coded_df → r !! "casenumber" = l !! "casenumber" →
                     ∀ c, c ∈ geocoded_columns → o !! c = r !! c)
                 ∧ ((∀ r : Series,
                        r ∈ coded_df → r !! "casenumber" ≠ l !! "casenumber") →
                    (∀ c, c ∈ ["geocoded_latitude"; "geocoded_longitude";
                               "geocoded_score"; "geocoded_address"] →
                          o !! c = Some NA)
                    ∧ o !! "recovered" = Some (Int 0)
                    ∧ o !! "final_latitude" = l !! "latitude"
                    ∧ o !! "final_longitude" = l !! "longitude"))
              original_df df.
Proof.
  intros _ Hcoded Horig Hnd. apply combine_geo_results_join_cells; [| |done].
  - eapply Forall_impl; [exact Hcoded|]. intros r [[s Hs] Hcells] c Hc.
    unfold geocoded_columns in Hc. apply elem_of_cons in Hc as [->|Hc].
    + by rewrite Hs.
    + destruct (Hcells c Hc) as (v & -> & _). by eauto.
  - eapply Forall_impl; [exact Horig|]. intros l ([s Hs] & Hread & Hfresh).
    split; [|done]. intros c Hc. apply elem_of_cons in Hc as [->|Hc].
    + by rewrite Hs.
    + destruct (Hread c Hc) as (v & -> & _). by eauto.
Qed.

Lemma combine_geo_results_join_witness :
  ∃ df,
    combine_geo_results join_coded frame_original = Ok df
    ∧ Forall2 (fun l o : Series =>
                 (∀ r : Series,
                     r ∈ join_coded → r !! "casenumber" = l !! "casenumber" →
                     ∀ c, c ∈ geocoded_columns → o !! c = r !! c)
                 ∧ ((∀ r : Series,
                        r ∈ join_coded → r !! "casenumber" ≠ l !! "casenumber") →
                    (∀ c, c ∈ ["geocoded_latitude"; "geocoded_longitude";
                               "geocoded_score"; "geocoded_address"] →
                          o !! c = Some NA)
                    ∧ o !! "recovered" = Some (Int 0)
                    ∧ o !! "final_latitude" = l !! "latitude"
                    ∧ o !! "final_longitude" = l !! "longitude"))
              frame_original df.
Proof.
  apply (combine_geo_results_join join_coded frame_original).
  - done.
  - apply Forall_cons; split; [|by apply Forall_nil].
    split; [vm_compute; by eexists|]. each_column; vm_compute; by eauto.
  - apply Forall_cons; split; [|apply Forall_cons; split; [|by apply Forall_nil]];
      (split; [vm_compute; by eexists|]);
      (split; each_column; vm_compute; by eauto).
  - apply NoDup_singleton.
Defined.

(** ** More on the geocoding loop *)

(** X15. Geocoding a list in two batches, the second starting from the
    session the first one left, gives the results and the session of one
    run over the whole list. *)
Theorem run_geocoding_app {W : Type}
  (geocode : string → extent → string → W → list candidate * W)
  (l1 l2 : list (option string)) (σ : session W) :
  run_geocoding geocode (l1 ++ l2) σ
  = ((run_geocoding geocode l1 σ).1
       ++ (run_geocoding geocode l2 (run_geocoding geocode l1 σ).2).1,
     (run_geocoding geocode l2 (run_geocoding geocode l1 σ).2).2).
Proof.
  revert σ. induction l1 as [|address l1 IH]; intros σ.
  - change (run_geocoding geocode [] σ) with (@nil geo_data, σ). cbn [fst snd app].
    by destruct (run_geocoding geocode l2 σ).
  - rewrite <- app_comm_cons, !run_geocoding_cons, IH. cbn [fst snd]. done.
Qed.

(** X16. With a provider whose answer depends on the query only, the
    results are computed address by address: a skipped address gets the
    null result, any other the address, y, x and score of the first
    candidate, or the null result when there is no candidate. *)
Theorem run_geocoding_pointwise {W : Type}
  (geocode : string → extent → string → W → list candidate * W)
  (answer : string → list candidate)
  (addresses : list (option string)) (σ : session W) :
  (∀ a w, (geocode a search_bounds "rooftop" w).1 = answer a) →
  (run_geocoding geocode addresses σ).1
  = (fun address =>
       match address with
       | Some a =>
           if contains "unknown" a then no_result address
           else match answer a with
                | best :: _ =>
                    {| geo_address := c_address best;
                       geo_latitude := loc_y (c_location best);
                       geo_longitude := loc_x (c_location best);
                       geo_score := c_score best |}
                | [] => no_result address
                end
       | None => no_result address
       end) <$> addresses.
Proof.
  intros Hpure. revert σ. induction addresses as [|address rest IH]; intros σ; [done|].
  rewrite run_geocoding_cons. cbn [fst fmap list_fmap]. cbn [fmap] in IH.
  rewrite IH. f_equal.
  destruct address as [a|]; cbn [geocode_address]; [|done].
  destruct (contains "unknown" a); [done|].
  specialize (Hpure a (provider σ)).
  destruct (geocode a search_bounds "rooftop" (provider σ)) as [info w].
  cbn [fst] in Hpure. subst info. by destruct (answer a).
Qed.

Lemma run_geocoding_pointwise_witness :
  (run_geocoding no_match_provider sample_addresses {| provider := tt; queries := [] |}).1
  = [no_result None; no_result (Some "unknown COLUMBIA 65201");
     no_result (Some "1 MAIN ST COLUMBIA 65201")].
Proof.
  by apply (run_geocoding_pointwise no_match_provider (fun _ => [])).
Defined.

(** ** Preparing the frame *)

Lemma prepare_df_rows (df : DataFrame) (addresses : list (string * bool)) :
  Forall2 (fun row a => create_address row "incident" = Ok a) df addresses →
  prepare_df df
  = Ok (zip_with (fun (row : Series) (a : string * bool) =>
                    <["incident_address_sub" := Bool a.2]>
                      (<["incident_address" := Cell (Str a.1)]> (Cell <$> row)))
                 df addresses).
Proof.
  intros H. unfold prepare_df. rewrite (proj2 (res_mapM_Forall2 _ _ _) H).
  cbn [mbind res_bind]. f_equal.
  induction H as [|row a rows addrs _ _ IH]; [done|]. cbn [zip_with]. by rewrite IH.
Qed.

(** X17. On a frame with at least one row whose incident street, two
    cities and incident zip are strs or missing, [prepare_df] succeeds and
    returns the frame row for row: every cell is kept, [incident_address]
    is the address [create_address] builds for the row in the incident
    context and [incident_address_sub] its substitution flag. *)
Theorem prepare_df_frame (df : DataFrame) :
  df ≠ [] →
  Forall (fun row : Series =>
            ∀ key, key ∈ ["incident_street"; "incident_city"; "residence_city";
                          "incident_zip"] →
                   row !! key = Some NA ∨ ∃ s, row !! key = Some (Str s)) df →
  ∃ out,
    prepare_df df = Ok out
    ∧ Forall2 (fun (row : Series) (o : gmap string value) =>
                 (∀ c, c ≠ "incident_address" → c ≠ "incident_address_sub" →
                       o !! c = Cell <$> row !! c)
                 ∧ ∃ address subbed,
                     create_address row "incident" = Ok (address, subbed)
                     ∧ o !! "incident_address" = Some (Cell (Str address))
                     ∧ o !! "incident_address_sub" = Some (Bool subbed)) df out.
Proof.
  intros _ Hdf.
  assert (∃ addresses,
             Forall2 (fun row a => create_address row "incident" = Ok a) df addresses)
    as [addresses Haddr].
  { induction Hdf as [|row rows Hrow _ [addresses IH]]; [by exists []|].
    destruct (create_address_incident_total row Hrow) as (address & subbed & H).
    exists ((address, subbed) :: addresses). by constructor. }
  eexists. split; [by apply prepare_df_rows|].
  clear Hdf. induction Haddr as [|row [address subbed] rows addrs Hrow _ IH];
    [constructor|].
  cbn [zip_with]. constructor; [|exact IH]. split.
  - intros c H1 H2. by rewrite !lookup_insert_ne, lookup_fmap by done.
  - exists address, subbed. split; [done|]. by simplify_map_eq.
Qed.

Lemma prepare_df_frame_witness :
  ∃ out,
    prepare_df prepare_sample = Ok out
    ∧ Forall2 (fun (row : Series) (o : gmap string value) =>
                 (∀ c, c ≠ "incident_address" → c ≠ "incident_address_sub" →
                       o !! c = Cell <$> row !! c)
                 ∧ ∃ address subbed,
                     create_address row "incident" = Ok (address, subbed)
                     ∧ o !! "incident_address" = Some (Cell (Str address))
                     ∧ o !! "incident_address_sub" = Some (Bool subbed))
              prepare_sample out.
Proof.
  apply (prepare_df_frame prepare_sample); [done|]. unfold prepare_sample.
  apply Forall_cons; split; [|apply Forall_cons; split; [|by apply Forall_nil]];
    each_column; vm_compute; by eauto.
Defined.

(** X18. One record on which [create_address] raises aborts the whole
    preparation: [prepare_df] raises what the first such record raises. *)
Theorem prepare_df_aborts (good rest : DataFrame) (bad : Series) e :
  Forall (fun row => ∃ a, create_address row "incident" = Ok a) good →
  create_address bad "incident" = Raise e →
  prepare_df (good ++ bad :: rest) = Raise e.
Proof.
  intros Hgood Hbad. unfold prepare_df.
  assert (res_mapM (fun row => create_address row "incident") (good ++ bad :: rest)
          = Raise e) as ->; [|done].
  induction Hgood as [|row rows [a Hrow] _ IH].
  - cbn [app res_mapM]. by rewrite Hbad.
  - rewrite <- app_comm_cons. cbn [res_mapM]. by rewrite Hrow, IH.
Qed.

Lemma prepare_df_aborts_witness :
  prepare_df ([example_record] ++ death_record_without_city :: [example_record])
  = Raise (KeyError "incident_street").
Proof.
  apply prepare_df_aborts.
  - apply Forall_cons; split; [|by apply Forall_nil]. eexists. by vm_compute.
  - by vm_compute.
Defined.
